(** * Geo-Narrator AI: a shallow embedding of [src/App.tsx]

    The application is a single React component tree.  Its logic lives in
    a handful of event handlers ([handleSubmit], [fetchAddress],
    [generateAIContent], [handleMapClick], [handleImageUpload]) and two
    pure renderers ([RichText], [ResultCard]).

    The repository holds a second copy of the component with a language
    toggle; its handlers and renderers are the same, the toggle only adds
    a sentence to the instruction text, which is a parameter here.

    - JavaScript strings are sequences of UTF-16 code units.
    - Values coming from the network are untyped JSON trees.
    - A handler is a computation that emits a trace of actions (state
      setter calls, console output, alerts) and either returns or throws;
      the component state after the handler is the fold of the trace. *)

From Stdlib Require Import String Ascii.
From Stdlib Require Import QArith NArith Bool Arith Lia List.
Import ListNotations.

Set Implicit Arguments.
Local Open Scope N_scope.
Local Open Scope list_scope.

(** ** JavaScript strings *)

Module JS.

Definition code_unit := N.
Definition jsstring := list code_unit.

(** An ASCII literal of the source, as code units. *)
Definition lit (s : string) : jsstring :=
  List.map N_of_ascii (list_ascii_of_string s).

Fixpoint str_eqb (a b : jsstring) : bool :=
  match a, b with
  | [], [] => true
  | x :: a', y :: b' => (x =? y) && str_eqb a' b'
  | _, _ => false
  end.

(** [s.startsWith(p)] *)
Fixpoint startsWith (p s : jsstring) : bool :=
  match p, s with
  | [], _ => true
  | _ :: _, [] => false
  | x :: p', y :: s' => (x =? y) && startsWith p' s'
  end.

(** [s.endsWith(p)] *)
Definition endsWith (p s : jsstring) : bool :=
  startsWith (rev p) (rev s).

(** [s.includes(p)] *)
Fixpoint includes (p s : jsstring) : bool :=
  startsWith p s ||
  match s with
  | [] => false
  | _ :: s' => includes p s'
  end.

(** [s.slice(2, -2)]: from index [min 2 len] up to index [max (len-2) 0]. *)
Definition slice_2_m2 (s : jsstring) : jsstring :=
  let len := length s in
  let from := Nat.min 2 len in
  let to := (len - 2)%nat in
  firstn (to - from) (skipn from s).

(** ECMAScript WhiteSpace and LineTerminator code points, the set that
    [String.prototype.trim] strips. *)
Definition isLineTerminator (c : code_unit) : bool :=
  (c =? 10) || (c =? 13) || (c =? 8232) || (c =? 8233).

Definition isWhiteSpace (c : code_unit) : bool :=
  (c =? 9) || (c =? 11) || (c =? 12) || (c =? 32) || (c =? 160) ||
  (c =? 5760) || ((8192 <=? c) && (c <=? 8202)) ||
  (c =? 8239) || (c =? 8287) || (c =? 12288) || (c =? 65279).

Definition isTrimmed (c : code_unit) : bool :=
  isWhiteSpace c || isLineTerminator c.

Fixpoint trimStart (s : jsstring) : jsstring :=
  match s with
  | [] => []
  | c :: s' => if isTrimmed c then trimStart s' else s
  end.

Definition trimEnd (s : jsstring) : jsstring := rev (trimStart (rev s)).

(** [s.trim()] *)
Definition trim (s : jsstring) : jsstring := trimEnd (trimStart s).

(** [s.replace(/pat/g, '')] for a pattern [pat] made of literal
    characters only: matches are taken left to right and do not overlap.
    [skip] counts the code units of the current match still to be
    consumed. *)
Fixpoint remove_go (pat : jsstring) (skip : nat) (s : jsstring) : jsstring :=
  match s with
  | [] => []
  | c :: s' =>
      match skip with
      | S k => remove_go pat k s'
      | O =>
          match pat with
          | [] => c :: remove_go pat O s'
          | _ :: _ =>
              if startsWith pat s
              then remove_go pat (length pat - 1) s'
              else c :: remove_go pat O s'
          end
      end
  end.

Definition removeAll (pat s : jsstring) : jsstring := remove_go pat O s.

(** [s.split(sep)] for a one-character separator. *)
Fixpoint split_on (sep : code_unit) (cur : jsstring) (s : jsstring)
  : list jsstring :=
  match s with
  | [] => [rev cur]
  | c :: s' =>
      if c =? sep then rev cur :: split_on sep [] s'
      else split_on sep (c :: cur) s'
  end.

Definition split (sep : code_unit) (s : jsstring) : list jsstring :=
  split_on sep [] s.

End JS.
Import JS.

(** ** The fence-stripping step of [generateAIContent]

    [text.replace(/```json/g, '').replace(/```/g, '').trim()] *)

Definition backtick : code_unit := 96.
Definition LF : code_unit := 10.

Definition fence : jsstring := [backtick; backtick; backtick].
Definition fence_json : jsstring := fence ++ lit "json".

Definition cleanJson (text : jsstring) : jsstring :=
  trim (removeAll fence (removeAll fence_json text)).

(** A fenced block as a model writes it: the opening marker on its own
    line, the text, and the closing marker on its own line. *)
Definition fenced (opener text : jsstring) : jsstring :=
  opener ++ LF :: text ++ LF :: fence.

(** ** [RichText]

    [content.split(re)] followed by a [map] over the parts, where [re]
    is the global pattern: two stars, lazily any characters, two stars,
    the whole of it in one capture group. *)

Definition star : code_unit := 42.
Definition bold_mark : jsstring := [star; star].

(** The tail of the pattern (lazy dot-star, then two stars) tried at
    [s]: the number of code units taken by the lazy dot-star, if the tail
    matches.  The dot does not match a line terminator. *)
Fixpoint lazy_close (s : jsstring) : option nat :=
  if startsWith bold_mark s then Some O
  else match s with
       | [] => None
       | c :: s' =>
           if isLineTerminator c then None
           else option_map S (lazy_close s')
       end.

(** The whole pattern tried at the start of [s]: the length of the match. *)
Definition match_at (s : jsstring) : option nat :=
  if startsWith bold_mark s
  then option_map (fun n => (n + 4)%nat) (lazy_close (skipn 2 s))
  else None.

(** The split loop.  [cur] holds (reversed) the text since the end of the
    previous match, [skip] the code units of the current match that are
    still to be stepped over.  A match contributes the text before it and
    then, for the capture group, the matched text itself. *)
Fixpoint split_go (skip : nat) (cur s : jsstring) : list jsstring :=
  match s with
  | [] => [rev cur]
  | c :: s' =>
      match skip with
      | S k => split_go k cur s'
      | O =>
          match match_at s with
          | Some n => rev cur :: firstn n s :: split_go (n - 1) [] s'
          | None => split_go O (c :: cur) s'
          end
      end
  end.

Definition split_bold (content : jsstring) : list jsstring :=
  split_go O [] content.

(** Children of the rendered paragraph. *)
Inductive Inline :=
| Plain (s : jsstring)
| Bold (s : jsstring).

Definition is_bold_part (part : jsstring) : bool :=
  startsWith bold_mark part && endsWith bold_mark part.

Definition render_part (part : jsstring) : Inline :=
  if is_bold_part part then Bold (slice_2_m2 part) else Plain part.

Definition RichText (content : jsstring) : list Inline :=
  List.map render_part (split_bold content).

Definition inline_text (i : Inline) : jsstring :=
  match i with Plain s => s | Bold s => s end.

(** The text a reader sees. *)
Definition rendered_text (l : list Inline) : jsstring :=
  concat (List.map inline_text l).

(** The same loop, keeping for each part whether it is text between
    matches or a match of the pattern. *)
Inductive Segment :=
| Between (s : jsstring)
| Matched (s : jsstring).

Definition segment_text (g : Segment) : jsstring :=
  match g with Between s => s | Matched s => s end.

Fixpoint segments_go (skip : nat) (cur s : jsstring) : list Segment :=
  match s with
  | [] => [Between (rev cur)]
  | c :: s' =>
      match skip with
      | S k => segments_go k cur s'
      | O =>
          match match_at s with
          | Some n =>
              Between (rev cur) :: Matched (firstn n s)
                :: segments_go (n - 1) [] s'
          | None => segments_go O (c :: cur) s'
          end
      end
  end.

Definition segments (content : jsstring) : list Segment :=
  segments_go O [] content.

(** No text between two matches looks like a bold fragment itself. *)
Definition between_is_plain (g : Segment) : bool :=
  match g with
  | Between s => negb (is_bold_part s)
  | Matched _ => true
  end.

(** In the words of the claim: the content with the two [**] delimiters
    of every fragment matched by the pattern removed, everything else
    kept. *)
Fixpoint delimiters_removed_go (skip : nat) (s : jsstring) : jsstring :=
  match s with
  | [] => []
  | c :: s' =>
      match skip with
      | S k => delimiters_removed_go k s'
      | O =>
          match match_at s with
          | Some n =>
              firstn (n - 4) (skipn 2 s) ++ delimiters_removed_go (n - 1) s'
          | None => c :: delimiters_removed_go O s'
          end
      end
  end.

Definition delimiters_removed (content : jsstring) : jsstring :=
  delimiters_removed_go O content.

(** ** JavaScript values received from the network *)

(** A JSON tree.  Numbers are only ever tested for truthiness or shown,
    so an exact rational stands for the double. *)
#[warnings="-register-all"]
Inductive JSON :=
| JNull
| JBool (b : bool)
| JNum (x : Q)
| JStr (s : jsstring)
| JArr (items : list JSON)
| JObj (fields : list (jsstring * JSON)).
(* [JObj] lists the fields of a parsed object, each name once. *)

(** A JavaScript value that may be [undefined]. *)
Definition JSVal := option JSON.
Definition undefined : JSVal := None.

(** An [Error] object, as far as the handlers look at it. *)
Record JSError := mkError { message : jsstring }.

(** A computation that returns or throws. *)
Inductive Completion (A : Type) :=
| Normal (a : A)
| Throw (e : JSError).
Arguments Normal {A} a.
Arguments Throw {A} e.

(** Truthiness ([!v], [v || w], [if (v)]). *)
Definition truthy (v : JSVal) : bool :=
  match v with
  | None => false
  | Some JNull => false
  | Some (JBool b) => b
  | Some (JNum x) => negb (Qeq_bool x 0)
  | Some (JStr s) => match s with [] => false | _ :: _ => true end
  | Some (JArr _) => true
  | Some (JObj _) => true
  end.

(** [a || b] on values. *)
Definition or_else (a b : JSVal) : JSVal := if truthy a then a else b.

(** [s || d] on a possibly missing string. *)
Definition str_or (s : option jsstring) (d : jsstring) : jsstring :=
  match s with
  | Some (c :: r) => c :: r
  | _ => d
  end.

Fixpoint lookup (name : jsstring) (fields : list (jsstring * JSON)) : JSVal :=
  match fields with
  | [] => None
  | (k, v) :: rest => if str_eqb k name then Some v else lookup name rest
  end.

(** The faults the engine raises by itself; their message texts are
    chosen by the engine. *)
Inductive EngineFault :=
| ReadPropertyOfNull (name : jsstring)
| NotAFunction (name : jsstring).

(** [v.name] for a data property [name] that no built-in prototype
    defines (display_name, candidates, content, parts, text, error,
    message): a field of an object, [undefined] on any other non-null
    value. *)
Definition get_prop_opt (name : jsstring) (v : JSON) : JSVal :=
  match v with
  | JObj fields => lookup name fields
  | _ => None
  end.

(** [v?.name] *)
Definition opt_prop (name : jsstring) (v : JSVal) : JSVal :=
  match v with
  | None | Some JNull => None
  | Some w => get_prop_opt name w
  end.

(** [v?.[0]]: the first element of an array, the first code unit of a
    string, the field named 0 of an object. *)
Definition opt_index0 (v : JSVal) : JSVal :=
  match v with
  | Some (JArr (x :: _)) => Some x
  | Some (JStr (c :: _)) => Some (JStr [c])
  | Some (JObj fields) => lookup (lit "0") fields
  | _ => None
  end.

(** ** Handlers as traced computations *)

Record LatLng := mkLatLng { lat : Q; lng : Q }.

(** [interface AIResponse] *)
Record GeographicalContext := mkGeo {
  state : jsstring;
  mainRiver : jsstring;
  climate : jsstring;
  elevation : jsstring }.

Record TraditionalArts := mkArts {
  dance : jsstring;
  music : jsstring;
  craft : jsstring }.

Record CulturalPractices := mkCulture {
  regionalFestivals : option (list jsstring);
  traditionalArts : TraditionalArts;
  regionalCuisine : option (list jsstring);
  localHandicrafts : option (list jsstring) }.

Record TimelineEntry := mkEntry { year : jsstring; event : jsstring }.

Record AIResponse := mkAIResponse {
  title : jsstring;
  location : jsstring;
  description : jsstring;
  history : jsstring;
  architecture : jsstring;
  vibe : jsstring;
  food : jsstring;
  funFact : jsstring;
  rating : Q;
  isLocation : bool;
  fallbackMessage : option jsstring;
  importantTimeline : option (list TimelineEntry);
  geographicalContext : option GeographicalContext;
  culturalPractices : option CulturalPractices;
  trivia : option (list jsstring);
  nearbyPlaces : option (list jsstring) }.

(** What is handed to the console next to the label. *)
Inductive Logged :=
| LogValue (v : JSVal)
| LogFlag (b : bool)
| LogText (s : jsstring)
| LogError (e : JSError).

(** Everything a handler does to the outside: state setters of [App]
    and of [LoginScreen], console output, the blocking alert. *)
Inductive Action :=
| SetIsAuthenticated (b : bool)
| SetPosition (p : option LatLng)
| SetAddress (a : JSVal)
| SetLoading (b : bool)
| SetAiData (d : option AIResponse)
| SetPreviewImage (p : option jsstring)
| LoginSetError (b : bool)
| LoginSetLoading (b : bool)
| PreventDefault
| ConsoleLog (label : jsstring) (arg : Logged)
| ConsoleError (label : jsstring) (arg : Logged)
| Alert (msg : jsstring).

Definition Eff (A : Type) : Type := (list Action * Completion A)%type.

Definition ret {A} (a : A) : Eff A := ([], Normal a).

Definition throw {A} (e : JSError) : Eff A := ([], Throw e).

Definition emit (a : Action) : Eff unit := ([a], Normal tt).

Definition bind {A B} (m : Eff A) (k : A -> Eff B) : Eff B :=
  match m with
  | (t, Normal a) => let (t', r) := k a in (t ++ t', r)
  | (t, Throw e) => (t, Throw e)
  end.

Notation "x <- m ;; k" := (bind m (fun x => k))
  (at level 61, m at next level, right associativity).
Notation "m ;;; k" := (bind m (fun _ => k))
  (at level 61, right associativity).

(** [try { m } catch (error) { h error }] *)
Definition try_catch {A} (m : Eff A) (h : JSError -> Eff A) : Eff A :=
  match m with
  | (t, Normal a) => (t, Normal a)
  | (t, Throw e) => let (t', r) := h e in (t ++ t', r)
  end.

(** [try { m } finally { f }] *)
Definition try_finally {A} (m : Eff A) (f : Eff unit) : Eff A :=
  match m, f with
  | (t, r), (t', Normal _) => (t ++ t', r)
  | (t, _), (t', Throw e) => (t ++ t', Throw e)
  end.

(** Lifting of a completion obtained from the outside. *)
Definition await {A} (c : Completion A) : Eff A := ([], c).

Definition trace {A} (m : Eff A) : list Action := fst m.
Definition completion {A} (m : Eff A) : Completion A := snd m.

(** ** Component state *)

Record LoginState := mkLogin {
  pass : jsstring;
  error : bool;
  login_loading : bool }.

Record AppState := mkApp {
  isAuthenticated : bool;
  position : option LatLng;
  address : JSVal;
  loading : bool;
  aiData : option AIResponse;
  previewImage : option jsstring;
  login : LoginState }.

(** [useState] initial values. *)
Definition initial_login : LoginState :=
  {| pass := []; error := false; login_loading := false |}.

Definition initial_state : AppState :=
  {| isAuthenticated := false;
     position := None;
     address := Some (JStr (lit "Select location..."));
     loading := false;
     aiData := None;
     previewImage := None;
     login := initial_login |}.

Definition apply_action (st : AppState) (a : Action) : AppState :=
  match a with
  | SetIsAuthenticated b =>
      mkApp b (position st) (address st) (loading st) (aiData st)
            (previewImage st) (login st)
  | SetPosition p =>
      mkApp (isAuthenticated st) p (address st) (loading st) (aiData st)
            (previewImage st) (login st)
  | SetAddress v =>
      mkApp (isAuthenticated st) (position st) v (loading st) (aiData st)
            (previewImage st) (login st)
  | SetLoading b =>
      mkApp (isAuthenticated st) (position st) (address st) b (aiData st)
            (previewImage st) (login st)
  | SetAiData d =>
      mkApp (isAuthenticated st) (position st) (address st) (loading st) d
            (previewImage st) (login st)
  | SetPreviewImage p =>
      mkApp (isAuthenticated st) (position st) (address st) (loading st)
            (aiData st) p (login st)
  | LoginSetError b =>
      mkApp (isAuthenticated st) (position st) (address st) (loading st)
            (aiData st) (previewImage st)
            (mkLogin (pass (login st)) b (login_loading (login st)))
  | LoginSetLoading b =>
      mkApp (isAuthenticated st) (position st) (address st) (loading st)
            (aiData st) (previewImage st)
            (mkLogin (pass (login st)) (error (login st)) b)
  | PreventDefault | ConsoleLog _ _ | ConsoleError _ _ | Alert _ => st
  end.

(** The state once every setter call of the trace has taken effect. *)
Definition run (st : AppState) (t : list Action) : AppState :=
  fold_left apply_action t st.

Definition after {A} (st : AppState) (m : Eff A) : AppState :=
  run st (trace m).

Definition is_alert (a : Action) : bool :=
  match a with Alert _ => true | _ => false end.

Definition alerts (t : list Action) : list Action := filter is_alert t.

(** ** [ResultCard] *)

Record HeaderView := mkHeader {
  header_location : jsstring;
  header_rating : Q;
  header_title : jsstring;
  header_vibe : jsstring }.

(** The panels of the populated card, in the order they are laid out. *)
Inductive Panel :=
| Overview (body : list Inline)
| GeographicalContextPanel (region climate river elev : jsstring)
| HistoricalSignificance (body : list Inline)
                         (timeline : option (list TimelineEntry))
| ArchitectureDesign (body : list Inline)
| CulturalTapestry (festivals cuisine handicrafts : list jsstring)
| NearbyAttractions (places : list jsstring)
| DidYouKnow (facts : list jsstring).

Inductive CardView :=
| AnalyzingLocation
| BeginExploration
| AnalysisFailed (msg : jsstring)
| Narrative (header : HeaderView) (panels : list Panel).

Definition default_fallback : jsstring :=
  lit "This doesn't appear to be a recognizable location. Please try again.".

(** [s || d] on a string. *)
Definition nonempty_or (s d : jsstring) : jsstring :=
  match s with [] => d | _ :: _ => s end.

(** [l?.map(...)] as children: nothing when [l] is missing. *)
Definition opt_items (l : option (list jsstring)) : list jsstring :=
  match l with Some xs => xs | None => [] end.

(** [cond && <panel/>] *)
Definition when_present {A} (o : option A) (f : A -> Panel) : list Panel :=
  match o with Some a => [f a] | None => [] end.

Definition narrative_panels (data : AIResponse) : list Panel :=
  [Overview (RichText (description data))]
  ++ when_present (geographicalContext data) (fun g =>
       GeographicalContextPanel
         (nonempty_or (state g) (lit "N/A"))
         (nonempty_or (climate g) (lit "N/A"))
         (nonempty_or (mainRiver g) (lit "N/A"))
         (nonempty_or (elevation g) (lit "N/A")))
  ++ [HistoricalSignificance (RichText (history data))
                             (importantTimeline data);
      ArchitectureDesign (RichText (architecture data))]
  ++ when_present (culturalPractices data) (fun c =>
       CulturalTapestry (opt_items (regionalFestivals c))
                        (opt_items (regionalCuisine c))
                        (opt_items (localHandicrafts c)))
  ++ when_present (nearbyPlaces data) NearbyAttractions
  ++ when_present (trivia data) DidYouKnow.

Definition ResultCard (data : option AIResponse) (loading : bool) : CardView :=
  if loading then AnalyzingLocation
  else match data with
       | None => BeginExploration
       | Some d =>
           if negb (isLocation d)
           then AnalysisFailed (str_or (fallbackMessage d) default_fallback)
           else Narrative
                  (mkHeader (location d) (rating d) (title d) (vibe d))
                  (narrative_panels d)
       end.

Definition panels_of (v : CardView) : list Panel :=
  match v with
  | Narrative _ ps => ps
  | _ => []
  end.

(** ** The handlers *)

(** The request body sent to the generative endpoint. *)
Inductive Part :=
| InlineData (mime_type data : jsstring)
| TextPart (text : jsstring).

Record Payload := mkPayload {
  temperature : Q;
  maxOutputTokens : N;
  safetySettings : list (jsstring * jsstring);
  contents : list (list Part) }.

Record Request := mkRequest { url : jsstring; body : Payload }.

(** What [fetch] resolves to: the status line and the outcome of
    reading the body with [response.json()]. *)
Record Response := mkResponse {
  status : N;
  statusText : jsstring;
  json : Completion JSON }.

(** [response.ok]: a status in the range 200 to 299. *)
Definition ok (r : Response) : bool :=
  (200 <=? status r) && (status r <=? 299).

Definition busy_alert : jsstring :=
  9203 :: lit " AI service is currently busy. Please wait 30 seconds and try again.".

Definition key_alert : jsstring :=
  55357 :: 56593 :: lit " Invalid API key. Please check your .env file.".

Definition generic_alert (msg : jsstring) : jsstring :=
  10060 :: lit " Error: " ++ nonempty_or msg (lit "Please try again.").

Section Handlers.

(** [import.meta.env] *)
Variable VITE_GEMINI_API_KEY : option jsstring.
Variable VITE_APP_PASSWORD : option jsstring.

(** The instruction template, instantiated at the place name. *)
Variable systemPrompt : jsstring -> jsstring.

(** String conversion of a value that is not a string. *)
Variable stringify : JSVal -> jsstring.

(** Message texts of the faults raised by the engine. *)
Variable engine_message : EngineFault -> jsstring.

(** [JSON.parse], its result held at the declared type of [aiData]. *)
Variable JSON_parse : jsstring -> Completion (option AIResponse).

(** The two remote services. *)
Variable fetch : Request -> Completion Response.
Variable axios_get : Q -> Q -> Completion JSVal.

(** Local files and what [readAsDataURL] leaves in [reader.result]. *)
Variable File : Type.
Variable readAsDataURL : File -> option jsstring.

Definition GEMINI_API_KEY : jsstring := str_or VITE_GEMINI_API_KEY [].
Definition APP_PASSWORD : jsstring := str_or VITE_APP_PASSWORD (lit "AmbujAI").

Definition to_string (v : JSVal) : jsstring :=
  match v with
  | Some (JStr s) => s
  | _ => stringify v
  end.

(** [v.name] *)
Definition get_prop (name : jsstring) (v : JSVal) : Eff JSVal :=
  match v with
  | None | Some JNull =>
      throw (mkError (engine_message (ReadPropertyOfNull name)))
  | Some w => ret (get_prop_opt name w)
  end.

(** *** LoginScreen *)

Definition handleSubmit (onLogin : Eff unit) (pass : jsstring) : Eff unit :=
  emit PreventDefault ;;;
  emit (LoginSetLoading true) ;;;
  if str_eqb pass APP_PASSWORD
  then onLogin
  else emit (LoginSetError true) ;;; emit (LoginSetLoading false).

(** The callback [App] hands to [LoginScreen]. *)
Definition onLogin : Eff unit := emit (SetIsAuthenticated true).

(** Submitting the form with the text currently in the input. *)
Definition submit (st : AppState) : Eff unit :=
  handleSubmit onLogin (pass (login st)).

(** *** App *)

Definition fetchAddress (lat lng : Q) : Eff JSVal :=
  try_catch
    (data <- await (axios_get lat lng) ;;
     name <- get_prop (lit "display_name") data ;;
     ret (or_else name (Some (JStr (lit "Unknown Location")))))
    (fun _ => ret (Some (JStr (lit "Selected Location")))).

Definition MODEL : jsstring := lit "gemini-flash-latest".

Definition endpoint : jsstring :=
  lit "https://generativelanguage.googleapis.com/v1beta/models/"
  ++ MODEL ++ lit ":generateContent?key=" ++ GEMINI_API_KEY.

Definition has_image (imageBase64 : option jsstring) : bool :=
  match imageBase64 with Some (_ :: _) => true | _ => false end.

Definition build_payload (prompt : JSVal) (imageBase64 : option jsstring)
  : Payload :=
  let sp := systemPrompt (to_string prompt) in
  {| temperature := 7 # 10;
     maxOutputTokens := if has_image imageBase64 then 4000 else 3000;
     safetySettings :=
       [(lit "HARM_CATEGORY_HARASSMENT", lit "BLOCK_NONE");
        (lit "HARM_CATEGORY_HATE_SPEECH", lit "BLOCK_NONE");
        (lit "HARM_CATEGORY_SEXUALLY_EXPLICIT", lit "BLOCK_NONE");
        (lit "HARM_CATEGORY_DANGEROUS_CONTENT", lit "BLOCK_NONE")];
     contents :=
       match imageBase64 with
       | Some (c :: d) =>
           [[InlineData (lit "image/jpeg") (c :: d); TextPart sp]]
       | _ => [[TextPart (sp ++ lit " Location: " ++ to_string prompt)]]
       end |}.

(** The receiver of [text.replace]: only a string has that method. *)
Definition replace_receiver (text : JSVal) : Eff jsstring :=
  match text with
  | Some (JStr s) => ret s
  | _ => throw (mkError (engine_message (NotAFunction (lit "text.replace"))))
  end.

(** The [try] block of [generateAIContent]. *)
Definition request_and_parse (prompt : JSVal) (imageBase64 : option jsstring)
  : Eff unit :=
  response <- await (fetch (mkRequest endpoint
                                      (build_payload prompt imageBase64))) ;;
  apiData <- await (json response) ;;
  emit (ConsoleLog (lit "API Response:") (LogValue (Some apiData))) ;;;
  emit (ConsoleLog (lit "Response OK:") (LogFlag (ok response))) ;;;
  (if negb (ok response)
   then
     emit (ConsoleError (lit "API Error Response:")
                        (LogValue (Some apiData))) ;;;
     if status response =? 503
     then throw (mkError
            (lit "AI service is busy. Please wait a moment and try again."))
     else
       err <- get_prop (lit "error") (Some apiData) ;;
       throw (mkError
                (to_string (or_else (opt_prop (lit "message") err)
                                    (Some (JStr (statusText response))))))
   else ret tt) ;;;
  candidates <- get_prop (lit "candidates") (Some apiData) ;;
  let text :=
    opt_prop (lit "text")
      (opt_index0
         (opt_prop (lit "parts")
            (opt_prop (lit "content") (opt_index0 candidates)))) in
  emit (ConsoleLog (lit "Extracted text:") (LogValue text)) ;;;
  (if negb (truthy text)
   then
     emit (ConsoleError (lit "Full API Response:")
                        (LogValue (Some apiData))) ;;;
     throw (mkError
              (lit "Empty response from AI. Check console for details."))
   else ret tt) ;;;
  s <- replace_receiver text ;;
  data <- await (JSON_parse (cleanJson s)) ;;
  emit (SetAiData data).

(** The [catch] block. *)
Definition report_failure (error : JSError) : Eff unit :=
  emit (ConsoleError (lit "AI Error:") (LogError error)) ;;;
  if includes (lit "overloaded") (message error)
     || includes (lit "busy") (message error)
  then emit (Alert busy_alert)
  else if includes (lit "API key") (message error)
  then emit (Alert key_alert)
  else emit (Alert (generic_alert (message error))).

Definition generateAIContent (prompt : JSVal) (imageBase64 : option jsstring)
  : Eff unit :=
  emit (SetLoading true) ;;;
  emit (SetAiData None) ;;;
  try_finally
    (try_catch (request_and_parse prompt imageBase64) report_failure)
    (emit (SetLoading false)).

Definition handleMapClick (latlng : LatLng) : Eff unit :=
  emit (SetPosition (Some latlng)) ;;;
  emit (SetPreviewImage None) ;;;
  addr <- fetchAddress (lat latlng) (lng latlng) ;;
  emit (SetAddress addr) ;;;
  generateAIContent addr None.

(** [LocationMarker]: a click on the map. *)
Definition map_click (latlng : LatLng) : Eff unit :=
  emit (SetPosition (Some latlng)) ;;;
  handleMapClick latlng.

Definition comma : code_unit := 44.

(** [reader.result?.toString().split(',')[1]] *)
Definition base64_of (result : option jsstring) : option jsstring :=
  match result with
  | None => None
  | Some r => nth_error (split comma r) 1
  end.

Definition handleImageUpload (file : option File) : Eff unit :=
  match file with
  | None => ret tt
  | Some f =>
      let result := readAsDataURL f in
      match base64_of result with
      | Some (c :: b) =>
          emit (SetPreviewImage result) ;;;
          emit (SetAddress (Some (JStr (lit "Analyzing image...")))) ;;;
          emit (SetPosition None) ;;;
          generateAIContent (Some (JStr [])) (Some (c :: b))
      | _ => ret tt
      end
  end.

(** *** How a call to the generative endpoint can end

    The conditions are stated on what the two oracles [fetch] and
    [JSON_parse] answer for the request that the call sends. *)

Definition the_request (prompt : JSVal) (imageBase64 : option jsstring)
  : Request :=
  mkRequest endpoint (build_payload prompt imageBase64).

(** [apiData.candidates?.[0]?.content?.parts?.[0]?.text], for a body
    that is not [null]. *)
Definition extract_text (apiData : JSON) : JSVal :=
  opt_prop (lit "text")
    (opt_index0
       (opt_prop (lit "parts")
          (opt_prop (lit "content")
             (opt_index0 (get_prop_opt (lit "candidates") apiData))))).

(** The response arrived with a status outside 200..299. *)
Definition http_failure (prompt : JSVal) (img : option jsstring) : Prop :=
  exists r apiData,
    fetch (the_request prompt img) = Normal r
    /\ json r = Normal apiData
    /\ ok r = false.

(** The response is a success but carries no text, or an empty one. *)
Definition empty_text (prompt : JSVal) (img : option jsstring) : Prop :=
  exists r apiData,
    fetch (the_request prompt img) = Normal r
    /\ json r = Normal apiData
    /\ ok r = true
    /\ truthy (extract_text apiData) = false.

(** The text is there but, once cleaned, is not valid JSON. *)
Definition malformed_json (prompt : JSVal) (img : option jsstring) : Prop :=
  exists r apiData s e,
    fetch (the_request prompt img) = Normal r
    /\ json r = Normal apiData
    /\ ok r = true
    /\ extract_text apiData = Some (JStr s)
    /\ s <> []
    /\ JSON_parse (cleanJson s) = Throw e.

(** The call goes through and the cleaned text parses to [d]. *)
Definition succeeds (prompt : JSVal) (img : option jsstring)
           (d : option AIResponse) : Prop :=
  exists r apiData s,
    fetch (the_request prompt img) = Normal r
    /\ json r = Normal apiData
    /\ ok r = true
    /\ extract_text apiData = Some (JStr s)
    /\ s <> []
    /\ JSON_parse (cleanJson s) = Normal d.

End Handlers.

(** ** What [App] puts on the screen *)

Inductive Screen :=
| LoginView (error_indicator : bool) (submit_disabled : bool)
| MainView (target : JSVal) (thumbnail : option jsstring)
           (card : CardView) (marker : option LatLng).

(** [previewImage && <img/>] *)
Definition thumbnail_of (p : option jsstring) : option jsstring :=
  match p with
  | Some (c :: r) => Some (c :: r)
  | _ => None
  end.

Definition App (st : AppState) : Screen :=
  if negb (isAuthenticated st)
  then LoginView (error (login st)) (login_loading (login st))
  else MainView (address st) (thumbnail_of (previewImage st))
                (ResultCard (aiData st) (loading st)) (position st).

(** ** Vocabulary for the statements *)

(** Console output only: no setter call, no alert. *)
Definition is_console (a : Action) : bool :=
  match a with
  | ConsoleLog _ _ | ConsoleError _ _ => true
  | _ => false
  end.

Definition quiet (t : list Action) : Prop := forallb is_console t = true.

(** The three messages the catch block chooses from. *)
Definition classified (msg : jsstring) (e : JSError) : Prop :=
  msg = busy_alert \/ msg = key_alert \/ msg = generic_alert (message e).

(** The "Target" label of the main view. *)
Definition target_label (v : Screen) : option JSVal :=
  match v with
  | MainView target _ _ _ => Some target
  | LoginView _ _ => None
  end.

Definition marker_of (v : Screen) : option LatLng :=
  match v with
  | MainView _ _ _ marker => marker
  | LoginView _ _ => None
  end.

Definition thumbnail (v : Screen) : option jsstring :=
  match v with
  | MainView _ thumb _ _ => thumb
  | LoginView _ _ => None
  end.

Definition unlocked (v : Screen) : bool :=
  match v with
  | MainView _ _ _ _ => true
  | LoginView _ _ => false
  end.

Definition error_indicator_shown (v : Screen) : bool :=
  match v with
  | LoginView e _ => e
  | MainView _ _ _ _ => false
  end.

(** ** Tactics and sample data for the statements *)

(** Runs the sequencing of a handler body as far as it is determined. *)
Ltac eff :=
  cbn [bind emit ret throw await try_catch try_finally app negb fst snd
       replace_receiver].

(** Closes [quiet ?t /\ m = (?t, r)]: the equation fixes the trace. *)
Ltac both_sides := split; [|reflexivity]; reflexivity.

(** Closes the failing alternative once the call is known not to succeed. *)
Ltac throws Hno :=
  right; eexists; eexists; split;
  [exact Hno | eff; cbn [get_prop]; eff; both_sides].

Definition three_stars : jsstring := [star; star; star].

Definition sample_content : jsstring := lit "The **Red Fort** of Delhi".

Definition blank_response : AIResponse :=
  {| title := []; location := []; description := []; history := [];
     architecture := []; vibe := []; food := []; funFact := [];
     rating := 0; isLocation := false; fallbackMessage := Some [];
     importantTimeline := None; geographicalContext := None;
     culturalPractices := None; trivia := None; nearbyPlaces := None |}.

Definition blurry_photo : AIResponse :=
  {| title := []; location := []; description := []; history := [];
     architecture := []; vibe := []; food := []; funFact := [];
     rating := 0; isLocation := false;
     fallbackMessage := Some (lit "The photo is too blurry.");
     importantTimeline := None; geographicalContext := None;
     culturalPractices := None; trivia := None; nearbyPlaces := None |}.

Definition typed (s : jsstring) : AppState :=
  mkApp false None (Some (JStr (lit "Select location..."))) false None None
        (mkLogin s false false).

Definition demo_prompt (place : jsstring) : jsstring :=
  lit "Describe " ++ place.

Definition demo_stringify (_ : JSVal) : jsstring := lit "[object Object]".

Definition demo_engine_message (f : EngineFault) : jsstring :=
  match f with
  | ReadPropertyOfNull name =>
      lit "Cannot read properties of null (reading '" ++ name ++ lit "')"
  | NotAFunction name => name ++ lit " is not a function"
  end.

Definition demo_parse (_ : jsstring) : Completion (option AIResponse) :=
  Throw (mkError (lit "Unexpected end of JSON input")).

(** The network is down: [fetch] rejects. *)
Definition offline (_ : Request) : Completion Response :=
  Throw (mkError (lit "Failed to fetch")).

(** The service answers 503 with an error body. *)
Definition overloaded (_ : Request) : Completion Response :=
  Normal (mkResponse 503 (lit "Service Unavailable") (Normal (JObj []))).

Definition delhi : LatLng := mkLatLng (286139 # 10000) (772090 # 10000).

Definition red_fort : jsstring := lit "Red Fort, Delhi, India".

Definition geocoder_down (_ _ : Q) : Completion JSVal :=
  Throw (mkError (lit "Network Error")).

Definition geocoder_up (_ _ : Q) : Completion JSVal :=
  Normal (Some (JObj [(lit "place_id", JNum 1);
                      (lit "display_name", JStr red_fort)])).

Definition signed_in : AppState :=
  mkApp true None (Some (JStr (lit "Select location..."))) false None None
        initial_login.

Definition photo_url : jsstring := lit "data:image/jpeg;base64,QUJD".

Definition read_photo (_ : unit) : option jsstring := Some photo_url.

(** ** The input field of [LoginScreen] and repeated attempts *)

(** [setPass(value)] *)
Definition setPass (value : jsstring) (st : AppState) : AppState :=
  mkApp (isAuthenticated st) (position st) (address st) (loading st)
        (aiData st) (previewImage st)
        (mkLogin value (error (login st)) (login_loading (login st))).

(** [onChange] of the input: [setPass(e.target.value); setError(false)]. *)
Definition onChange (value : jsstring) (st : AppState) : AppState :=
  run (setPass value st) [LoginSetError false].

(** Typing a guess into the field and submitting the form. *)
Definition attempt (env : option jsstring) (st : AppState)
           (guess : jsstring) : AppState :=
  after (onChange guess st) (submit env (onChange guess st)).

Definition attempts (env : option jsstring) (st : AppState)
           (guesses : list jsstring) : AppState :=
  fold_left (attempt env) guesses st.

(** The close button of the preview: [setPreviewImage(null)]. *)
Definition closePreview : Eff unit := emit (SetPreviewImage None).

(** ** Shapes of text and of response bodies used in the statements *)

Definition no_line_break (s : jsstring) : bool :=
  forallb (fun c => negb (isLineTerminator c)) s.

Definition emphasised (b : jsstring) : jsstring :=
  bold_mark ++ b ++ bold_mark.

(** A data URL: a header, a comma, the payload. *)
Definition data_url (header payload : jsstring) : jsstring :=
  header ++ comma :: payload.

(** A body of the generative endpoint with one candidate holding one text
    part. *)
Definition one_candidate (text : jsstring) : JSON :=
  JObj [(lit "candidates",
         JArr [JObj [(lit "content",
                      JObj [(lit "parts",
                             JArr [JObj [(lit "text", JStr text)]]);
                            (lit "role", JStr (lit "model"))]);
                     (lit "finishReason", JStr (lit "STOP"))]])].

Definition taj_mahal : AIResponse :=
  {| title := lit "Taj Mahal"; location := lit "Agra, India";
     description := lit "A **marble** mausoleum."; history := lit "Built 1632.";
     architecture := lit "Mughal."; vibe := lit "Serene";
     food := lit "Petha"; funFact := lit "It changes colour.";
     rating := 10; isLocation := true; fallbackMessage := None;
     importantTimeline := None;
     geographicalContext :=
       Some (mkGeo (lit "Uttar Pradesh") (lit "Yamuna") [] []);
     culturalPractices := None; trivia := None; nearbyPlaces := None |}.

Definition taj_text : jsstring := lit "{ }".

Definition demo_parse_taj (_ : jsstring) : Completion (option AIResponse) :=
  Normal (Some taj_mahal).

(** The service answers 200 with a fenced payload. *)
Definition answering (_ : Request) : Completion Response :=
  Normal (mkResponse 200 (lit "OK")
            (Normal (one_candidate (fenced fence_json taj_text)))).

(** The service answers 200 without any candidate. *)
Definition blocked (_ : Request) : Completion Response :=
  Normal (mkResponse 200 (lit "OK")
            (Normal (JObj [(lit "promptFeedback",
                            JObj [(lit "blockReason",
                                   JStr (lit "SAFETY"))])]))).

(** The service rejects the key with status 400. *)
Definition bad_key (_ : Request) : Completion Response :=
  Normal (mkResponse 400 (lit "Bad Request")
            (Normal (JObj [(lit "error",
                            JObj [(lit "code", JNum 400);
                                  (lit "message",
                                   JStr (lit "API key not valid."))])]))).

(** The service answers 404 over a connection without status text. *)
Definition not_found (_ : Request) : Completion Response :=
  Normal (mkResponse 404 [] (Normal (JObj []))).

(** The geocoder finds nothing at the point. *)
Definition geocoder_nowhere (_ _ : Q) : Completion JSVal :=
  Normal (Some (JObj [(lit "error", JStr (lit "Unable to geocode"))])).

Definition read_nothing (_ : unit) : option jsstring := None.

(** * Properties *)

Unset Implicit Arguments.

(** ** Strings *)

Lemma startsWith_length (p s : jsstring) :
  startsWith p s = true -> (length p <= length s)%nat.
Proof.
  revert s; induction p as [|x p IH]; intros [|y s]; simpl; intros H;
    try lia; try discriminate.
  apply andb_true_iff in H. destruct H as [_ H].
  apply IH in H. lia.
Qed.

Lemma startsWith_before_sep (pat t u : jsstring) (sep : code_unit) :
  ~ In sep pat ->
  pat <> [] ->
  startsWith pat (t ++ sep :: u) = startsWith pat t.
Proof.
  revert t; induction pat as [|x p IH]; intros t Hsep Hne.
  - congruence.
  - destruct t as [|y t]; simpl.
    + destruct (N.eqb_spec x sep) as [->|_]; [|reflexivity].
      exfalso; apply Hsep; left; reflexivity.
    + destruct p as [|x' p'].
      * reflexivity.
      * f_equal. apply IH; [|discriminate].
        intros Hin; apply Hsep; right; exact Hin.
Qed.

Lemma remove_go_sep (pat t u : jsstring) (sep : code_unit) (k : nat) :
  ~ In sep pat ->
  pat <> [] ->
  (k <= length t)%nat ->
  remove_go pat k (t ++ sep :: u)
  = remove_go pat k t ++ sep :: remove_go pat O u.
Proof.
  intros Hsep Hne. revert k.
  induction t as [|c t IH]; intros k Hk.
  - assert (k = O) by (simpl in Hk; lia); subst k.
    destruct pat as [|x p]; [congruence|].
    cbn [app remove_go startsWith].
    destruct (N.eqb_spec x sep) as [->|_].
    + exfalso; apply Hsep; left; reflexivity.
    + reflexivity.
  - destruct k as [|k].
    + destruct pat as [|x p]; [congruence|].
      change ((c :: t) ++ sep :: u) with (c :: (t ++ sep :: u)).
      cbn [remove_go].
      change (c :: (t ++ sep :: u)) with ((c :: t) ++ sep :: u).
      rewrite startsWith_before_sep by assumption.
      destruct (startsWith (x :: p) (c :: t)) eqn:E.
      * apply IH. apply startsWith_length in E. simpl in *. lia.
      * simpl. f_equal. apply IH. lia.
    + simpl. apply IH. simpl in Hk. lia.
Qed.

Lemma removeAll_sep (pat t u : jsstring) (sep : code_unit) :
  ~ In sep pat ->
  pat <> [] ->
  removeAll pat (t ++ sep :: u) = removeAll pat t ++ sep :: removeAll pat u.
Proof.
  intros. unfold removeAll. apply remove_go_sep; auto. lia.
Qed.

Lemma trimStart_snoc (x : jsstring) (c : code_unit) :
  isTrimmed c = true ->
  (trimStart (x ++ [c]) = [] /\ trimStart x = [])
  \/ trimStart (x ++ [c]) = trimStart x ++ [c].
Proof.
  intros Hc. induction x as [|y x IH]; simpl.
  - rewrite Hc. left; split; reflexivity.
  - destruct (isTrimmed y); [exact IH|right; reflexivity].
Qed.

Lemma trim_cons (x : jsstring) (c : code_unit) :
  isTrimmed c = true -> trim (c :: x) = trim x.
Proof.
  intros Hc. unfold trim. simpl. rewrite Hc. reflexivity.
Qed.

Lemma trim_snoc (x : jsstring) (c : code_unit) :
  isTrimmed c = true -> trim (x ++ [c]) = trim x.
Proof.
  intros Hc. unfold trim, trimEnd.
  destruct (trimStart_snoc x c Hc) as [[E1 E2]|E].
  - rewrite E1, E2. reflexivity.
  - rewrite E, rev_app_distr. simpl. rewrite Hc. reflexivity.
Qed.

Lemma LF_not_in_fence_json : ~ In LF fence_json.
Proof.
  cbv. intros H.
  repeat (destruct H as [H|H]; [discriminate H|]). exact H.
Qed.

Lemma LF_not_in_fence : ~ In LF fence.
Proof.
  cbv. intros H.
  repeat (destruct H as [H|H]; [discriminate H|]). exact H.
Qed.

Lemma cleanJson_fenced_json (t : jsstring) :
  cleanJson (fenced fence_json t) = cleanJson t.
Proof.
  unfold cleanJson, fenced.
  rewrite (removeAll_sep fence_json _ _ LF LF_not_in_fence_json)
    by discriminate.
  rewrite (removeAll_sep fence_json _ _ LF LF_not_in_fence_json)
    by discriminate.
  change (removeAll fence_json fence_json) with (@nil code_unit).
  change (removeAll fence_json fence) with fence.
  change ([] ++ LF :: removeAll fence_json t ++ LF :: fence)
    with ([] ++ LF :: (removeAll fence_json t ++ LF :: fence)).
  rewrite (removeAll_sep fence _ _ LF LF_not_in_fence) by discriminate.
  rewrite (removeAll_sep fence _ _ LF LF_not_in_fence) by discriminate.
  change (removeAll fence fence) with (@nil code_unit).
  change (removeAll fence []) with (@nil code_unit).
  cbn [app]. rewrite trim_cons by reflexivity.
  apply trim_snoc. reflexivity.
Qed.

Lemma cleanJson_fenced_plain (t : jsstring) :
  cleanJson (fenced fence t) = cleanJson t.
Proof.
  unfold cleanJson, fenced.
  rewrite (removeAll_sep fence_json _ _ LF LF_not_in_fence_json)
    by discriminate.
  rewrite (removeAll_sep fence_json _ _ LF LF_not_in_fence_json)
    by discriminate.
  change (removeAll fence_json fence) with fence.
  rewrite (removeAll_sep fence _ _ LF LF_not_in_fence) by discriminate.
  rewrite (removeAll_sep fence _ _ LF LF_not_in_fence) by discriminate.
  change (removeAll fence fence) with (@nil code_unit).
  cbn [app]. rewrite trim_cons by reflexivity.
  apply trim_snoc. reflexivity.
Qed.

(** *** Markers glued to the text *)

Lemma remove_go_skip (pat s : jsstring) (k : nat) :
  remove_go pat k s = removeAll pat (skipn k s).
Proof.
  revert k. induction s as [|c s IH]; intros [|k]; try reflexivity.
  simpl. apply IH.
Qed.

Lemma removeAll_cons (pat s : jsstring) (c : code_unit) :
  pat <> [] ->
  removeAll pat (c :: s)
  = if startsWith pat (c :: s)
    then removeAll pat (skipn (length pat) (c :: s))
    else c :: removeAll pat s.
Proof.
  intros Hne. destruct pat as [|x p]; [congruence|].
  unfold removeAll at 1. cbn [remove_go].
  destruct (startsWith (x :: p) (c :: s)); [|reflexivity].
  rewrite remove_go_skip. cbn [length skipn].
  replace (S (length p) - 1)%nat with (length p) by lia. reflexivity.
Qed.

Lemma startsWith_incl (q u : jsstring) (c : code_unit) :
  startsWith q u = true -> In c q -> In c u.
Proof.
  revert u. induction q as [|x q IH]; intros [|y u]; simpl;
    try discriminate; try tauto.
  intros H. apply andb_true_iff in H. destruct H as [Hxy H].
  apply N.eqb_eq in Hxy. subst y.
  intros [->|Hc]; [left; reflexivity|right; apply IH; assumption].
Qed.

(** A match cannot end inside a suffix that lacks the last character of
    the pattern. *)
Lemma startsWith_before_suffix (p t u : jsstring) (z : code_unit) :
  ~ In z u ->
  startsWith (p ++ [z]) (t ++ u) = startsWith (p ++ [z]) t.
Proof.
  intros Hz. revert t. induction p as [|x p IH]; intros t.
  - destruct t as [|y t]; [|reflexivity].
    destruct u as [|y u]; [reflexivity|].
    cbn. destruct (N.eqb_spec z y) as [->|_]; [|reflexivity].
    exfalso. apply Hz. left. reflexivity.
  - destruct t as [|y t].
    + cbn [app]. destruct (startsWith (x :: p ++ [z]) u) eqn:E.
      * exfalso. apply Hz. apply (startsWith_incl _ _ z E).
        right. apply in_or_app. right. left. reflexivity.
      * destruct u; reflexivity.
    + cbn [app startsWith]. rewrite IH. reflexivity.
Qed.

Lemma remove_go_before_suffix (p t u : jsstring) (z : code_unit) (k : nat) :
  ~ In z u ->
  (k <= length t)%nat ->
  remove_go (p ++ [z]) k (t ++ u) = remove_go (p ++ [z]) k t ++ u.
Proof.
  intros Hz. revert k.
  assert (Hne : p ++ [z] <> []) by (destruct p; discriminate).
  induction t as [|c t IH]; intros k Hk.
  - assert (k = O) by (simpl in Hk; lia). subst k. cbn [app remove_go].
    clear Hk. induction u as [|c u IHu]; [destruct (p ++ [z]); reflexivity|].
    fold (removeAll (p ++ [z]) (c :: u)).
    rewrite removeAll_cons by exact Hne.
    destruct (startsWith (p ++ [z]) (c :: u)) eqn:E.
    + exfalso. apply Hz. apply (startsWith_incl _ _ z E).
      apply in_or_app. right. left. reflexivity.
    + f_equal. apply IHu. intros Hin. apply Hz. right. exact Hin.
  - destruct k as [|k].
    + fold (removeAll (p ++ [z]) ((c :: t) ++ u)).
      fold (removeAll (p ++ [z]) (c :: t)).
      change ((c :: t) ++ u) with (c :: (t ++ u)).
      rewrite !removeAll_cons by exact Hne.
      change (c :: (t ++ u)) with ((c :: t) ++ u).
      rewrite startsWith_before_suffix by exact Hz.
      destruct (startsWith (p ++ [z]) (c :: t)) eqn:E.
      * apply startsWith_length in E.
        rewrite <- !remove_go_skip. 
        destruct (length (p ++ [z])) as [|n] eqn:El.
        { destruct p; discriminate El. }
        cbn [remove_go app]. apply IH. simpl in E. lia.
      * cbn [app]. f_equal. apply (IH O). lia.
    + cbn [app remove_go]. apply IH. simpl in Hk. lia.
Qed.

Lemma removeAll_fence_keep (c : code_unit) (r : jsstring) :
  startsWith fence (c :: r) = false ->
  removeAll fence (c :: r) = c :: removeAll fence r.
Proof.
  intros E. rewrite removeAll_cons by discriminate. rewrite E. reflexivity.
Qed.

Lemma removeAll_fence_drop (r : jsstring) :
  removeAll fence (backtick :: backtick :: backtick :: r) = removeAll fence r.
Proof. rewrite removeAll_cons by discriminate. reflexivity. Qed.

(** A closing marker right after the text only lengthens its last run of
    backticks by three, and the second pass removes backticks in threes. *)
Lemma removeAll_fence_glued (x : jsstring) :
  removeAll fence (x ++ fence) = removeAll fence x.
Proof.
  remember (length x) as n eqn:Hn.
  revert x Hn. induction n as [n IH] using lt_wf_ind. intros x Hn.
  destruct x as [|a x]; [reflexivity|].
  destruct (N.eqb_spec a backtick) as [->|Ha].
  2:{ assert (E : forall r, startsWith fence (a :: r) = false).
      { intros r. unfold fence. cbn [startsWith].
        destruct (N.eqb_spec backtick a); [congruence|reflexivity]. }
      cbn [app]. rewrite !removeAll_fence_keep by apply E.
      f_equal. apply (IH (length x)); [subst n; simpl; lia|reflexivity]. }
  destruct x as [|b x]; [reflexivity|].
  destruct (N.eqb_spec b backtick) as [->|Hb].
  2:{ assert (E : forall r, startsWith fence (backtick :: b :: r) = false).
      { intros r. unfold fence. cbn [startsWith]. rewrite N.eqb_refl.
        destruct (N.eqb_spec backtick b); [congruence|reflexivity]. }
      cbn [app].
      rewrite (removeAll_fence_keep backtick (b :: x ++ fence)) by apply E.
      rewrite (removeAll_fence_keep backtick (b :: x)) by apply E.
      f_equal.
      apply (IH (length (b :: x)) ltac:(subst n; simpl; lia) (b :: x)
                eq_refl). }
  destruct x as [|c x]; [reflexivity|].
  destruct (N.eqb_spec c backtick) as [->|Hc].
  - cbn [app]. rewrite !removeAll_fence_drop.
    apply (IH (length x)); [subst n; simpl; lia|reflexivity].
  - assert (E : forall r,
               startsWith fence (backtick :: backtick :: c :: r) = false).
    { intros r. unfold fence. cbn [startsWith]. rewrite !N.eqb_refl.
      destruct (N.eqb_spec backtick c); [congruence|reflexivity]. }
    cbn [app].
    rewrite (removeAll_fence_keep backtick (backtick :: c :: x ++ fence))
      by apply E.
    rewrite (removeAll_fence_keep backtick (backtick :: c :: x)) by apply E.
    f_equal.
    apply (IH (length (backtick :: c :: x)) ltac:(subst n; simpl; lia)
              (backtick :: c :: x) eq_refl).
Qed.

Lemma cleanJson_glued_json (t : jsstring) :
  cleanJson (fence_json ++ t ++ fence) = cleanJson t.
Proof.
  unfold cleanJson. f_equal.
  assert (E : removeAll fence_json (fence_json ++ t ++ fence)
              = removeAll fence_json (t ++ fence)).
  { unfold removeAll. change (fence_json ++ t ++ fence)
      with (backtick :: backtick :: backtick :: lit "json" ++ t ++ fence).
    change (lit "json" ++ t ++ fence)
      with (106 :: 115 :: 111 :: 110 :: t ++ fence).
    reflexivity. }
  rewrite E. unfold removeAll.
  change fence_json with (firstn 6 fence_json ++ [110]).
  rewrite remove_go_before_suffix.
  - apply removeAll_fence_glued.
  - cbv. intros H.
    repeat (destruct H as [H|H]; [discriminate H|]). exact H.
  - lia.
Qed.

(** Only a bare opening marker glued to a text that begins with the tag
    itself is read as a tagged marker. *)
Lemma glued_fence_absorbs_text :
  cleanJson (fence ++ lit "json" ++ fence) = []
  /\ cleanJson (lit "json") = lit "json".
Proof. split; reflexivity. Qed.

(** ** The split of [RichText] *)

Lemma startsWith_bold_mark (s : jsstring) :
  startsWith bold_mark s = true -> exists r, s = star :: star :: r.
Proof.
  unfold bold_mark.
  destruct s as [|a [|b r]]; cbn [startsWith]; try discriminate.
  - rewrite andb_false_r. discriminate.
  - intros H. apply andb_true_iff in H. destruct H as [Ha H].
    apply andb_true_iff in H. destruct H as [Hb _].
    apply N.eqb_eq in Ha, Hb. subst. exists r. reflexivity.
Qed.

Lemma lazy_close_shape (s : jsstring) (k : nat) :
  lazy_close s = Some k ->
  firstn (k + 2) s = firstn k s ++ bold_mark /\ (k + 2 <= length s)%nat.
Proof.
  revert k. induction s as [|c s IH]; intros k.
  - simpl. discriminate.
  - cbn [lazy_close].
    destruct (startsWith bold_mark (c :: s)) eqn:E.
    + intros H. injection H as <-.
      apply startsWith_bold_mark in E. destruct E as [r E].
      rewrite E. simpl. split; [reflexivity|lia].
    + destruct (isLineTerminator c); [discriminate|].
      destruct (lazy_close s) as [j|] eqn:Ej; [|discriminate].
      simpl. intros H. injection H as <-.
      destruct (IH j eq_refl) as [H1 H2].
      simpl. rewrite H1. split; [reflexivity|lia].
Qed.

Lemma match_at_shape (s : jsstring) (n : nat) :
  match_at s = Some n ->
  (4 <= n <= length s)%nat
  /\ firstn n s = bold_mark ++ firstn (n - 4) (skipn 2 s) ++ bold_mark.
Proof.
  unfold match_at.
  destruct (startsWith bold_mark s) eqn:E; [|discriminate].
  apply startsWith_bold_mark in E. destruct E as [r ->].
  cbn [skipn].
  destruct (lazy_close r) as [k|] eqn:Ek; [|discriminate].
  simpl. intros H. injection H as <-.
  destruct (lazy_close_shape r k Ek) as [H1 H2].
  replace (k + 4)%nat with (S (S (k + 2))) by lia.
  replace (S (S (k + 2)) - 4)%nat with k by lia.
  cbn [firstn length]. rewrite H1. split; [lia|reflexivity].
Qed.

Lemma is_bold_part_delimited (mid : jsstring) :
  is_bold_part (bold_mark ++ mid ++ bold_mark) = true.
Proof.
  unfold is_bold_part, endsWith.
  rewrite !rev_app_distr. reflexivity.
Qed.

Lemma slice_delimited (mid : jsstring) :
  slice_2_m2 (bold_mark ++ mid ++ bold_mark) = mid.
Proof.
  unfold slice_2_m2.
  rewrite !length_app. change (length bold_mark) with 2%nat.
  replace (Nat.min 2 (2 + (length mid + 2))) with 2%nat by lia.
  replace (2 + (length mid + 2) - 2 - 2)%nat with (length mid) by lia.
  change (skipn 2 (bold_mark ++ mid ++ bold_mark)) with (mid ++ bold_mark).
  rewrite firstn_app, firstn_all, Nat.sub_diag. simpl.
  apply app_nil_r.
Qed.

Lemma render_matched (s : jsstring) (n : nat) :
  match_at s = Some n ->
  render_part (firstn n s) = Bold (firstn (n - 4) (skipn 2 s)).
Proof.
  intros H. destruct (match_at_shape s n H) as [_ E].
  unfold render_part. rewrite E.
  rewrite is_bold_part_delimited, slice_delimited. reflexivity.
Qed.

Lemma split_go_segments (s cur : jsstring) (k : nat) :
  List.map segment_text (segments_go k cur s) = split_go k cur s.
Proof.
  revert k cur. induction s as [|c s IH]; intros k cur.
  - reflexivity.
  - cbn [segments_go split_go]. destruct k as [|k].
    + destruct (match_at (c :: s)) as [n|].
      * cbn [List.map segment_text]. rewrite IH. reflexivity.
      * apply IH.
    + apply IH.
Qed.

Lemma split_go_concat (s cur : jsstring) (k : nat) :
  concat (split_go k cur s) = rev cur ++ skipn k s.
Proof.
  revert k cur. induction s as [|c s IH]; intros k cur.
  - simpl. rewrite skipn_nil, app_nil_r. reflexivity.
  - cbn [split_go]. destruct k as [|k].
    + destruct (match_at (c :: s)) as [n|] eqn:E.
      * destruct (match_at_shape _ _ E) as [[Hn _] _].
        cbn [concat]. rewrite IH. cbn [rev app].
        destruct n as [|n]; [lia|].
        replace (S n - 1)%nat with n by lia.
        change (skipn n s) with (skipn (S n) (c :: s)).
        rewrite firstn_skipn. reflexivity.
      * rewrite IH. cbn [rev skipn]. rewrite <- app_assoc. reflexivity.
    + rewrite IH. reflexivity.
Qed.

Lemma rendered_text_segments (s cur : jsstring) (k : nat) :
  forallb between_is_plain (segments_go k cur s) = true ->
  rendered_text (List.map render_part (split_go k cur s))
  = rev cur ++ delimiters_removed_go k s.
Proof.
  unfold rendered_text.
  revert k cur. induction s as [|c s IH]; intros k cur.
  - cbn. rewrite andb_true_r. intros H. apply negb_true_iff in H.
    unfold render_part. rewrite H. cbn. rewrite !app_nil_r. reflexivity.
  - cbn [segments_go split_go delimiters_removed_go]. destruct k as [|k].
    + destruct (match_at (c :: s)) as [n|] eqn:E.
      * cbn [forallb between_is_plain]. intros H.
        apply andb_true_iff in H. destruct H as [Hcur H].
        cbn [andb] in H.
        apply negb_true_iff in Hcur.
        cbn [List.map concat]. rewrite (render_matched _ _ E).
        unfold render_part at 1. rewrite Hcur.
        cbn [inline_text]. rewrite (IH _ _ H). reflexivity.
      * intros H. rewrite (IH _ _ H). cbn [rev].
        rewrite <- app_assoc. reflexivity.
    + intros H. apply (IH _ _ H).
Qed.

Lemma matched_segments_delimited (s cur : jsstring) (k : nat) (m : jsstring) :
  In (Matched m) (segments_go k cur s) ->
  exists mid, m = bold_mark ++ mid ++ bold_mark /\ render_part m = Bold mid.
Proof.
  revert k cur. induction s as [|c s IH]; intros k cur.
  - simpl. intros [H|[]]. discriminate.
  - cbn [segments_go]. destruct k as [|k].
    + destruct (match_at (c :: s)) as [n|] eqn:E.
      * intros [H|[H|H]].
        -- discriminate.
        -- injection H as <-.
           exists (firstn (n - 4) (skipn 2 (c :: s))). split.
           ++ apply (match_at_shape _ _ E).
           ++ apply (render_matched _ _ E).
        -- apply (IH _ _ H).
      * apply IH.
    + apply IH.
Qed.

(** ** Traces and state *)

Lemma run_app (st : AppState) (t u : list Action) :
  run st (t ++ u) = run (run st t) u.
Proof. apply fold_left_app. Qed.

Lemma run_quiet (t : list Action) (st : AppState) :
  quiet t -> run st t = st.
Proof.
  unfold quiet. revert st. induction t as [|a t IH]; intros st H.
  - reflexivity.
  - simpl in H. apply andb_true_iff in H. destruct H as [Ha Ht].
    simpl. destruct a; try discriminate Ha; apply IH; exact Ht.
Qed.

Lemma alerts_app (t u : list Action) :
  alerts (t ++ u) = alerts t ++ alerts u.
Proof. apply filter_app. Qed.

Lemma alerts_quiet (t : list Action) : quiet t -> alerts t = [].
Proof.
  unfold quiet. induction t as [|a t IH]; intros H.
  - reflexivity.
  - simpl in H. apply andb_true_iff in H. destruct H as [Ha Ht].
    destruct a; try discriminate Ha; simpl; apply IH; exact Ht.
Qed.

Lemma report_failure_shape (e : JSError) :
  exists msg,
    report_failure e
    = ([ConsoleError (lit "AI Error:") (LogError e); Alert msg], Normal tt)
    /\ classified msg e.
Proof.
  unfold report_failure, classified.
  destruct (includes (lit "overloaded") (message e)
            || includes (lit "busy") (message e)).
  - exists busy_alert. split; [reflexivity|auto].
  - destruct (includes (lit "API key") (message e)).
    + exists key_alert. split; [reflexivity|auto].
    + exists (generic_alert (message e)). split; [reflexivity|auto].
Qed.

Lemma JSON_null_dec (v : JSON) : {v = JNull} + {v <> JNull}.
Proof. destruct v; (left; reflexivity) || (right; discriminate). Qed.

Lemma JSON_str_dec (v : JSON) :
  {s | v = JStr s} + {forall s, v <> JStr s}.
Proof.
  destruct v; try (right; discriminate).
  left. eexists. reflexivity.
Qed.

Lemma get_prop_nonnull (em : EngineFault -> jsstring) (name : jsstring)
      (v : JSON) :
  v <> JNull -> get_prop em name (Some v) = ret (get_prop_opt name v).
Proof. destruct v; congruence || reflexivity. Qed.

Section GenerativeCall.

Variable VITE_GEMINI_API_KEY : option jsstring.
Variable systemPrompt : jsstring -> jsstring.
Variable stringify : JSVal -> jsstring.
Variable engine_message : EngineFault -> jsstring.
Variable JSON_parse : jsstring -> Completion (option AIResponse).
Variable fetch : Request -> Completion Response.

Local Abbreviation request_and_parse' :=
  (request_and_parse VITE_GEMINI_API_KEY systemPrompt stringify
                     engine_message JSON_parse fetch).
Local Abbreviation generateAIContent' :=
  (generateAIContent VITE_GEMINI_API_KEY systemPrompt stringify
                     engine_message JSON_parse fetch).
Local Abbreviation the_request' :=
  (the_request VITE_GEMINI_API_KEY systemPrompt stringify).
Local Abbreviation succeeds' :=
  (succeeds VITE_GEMINI_API_KEY systemPrompt stringify JSON_parse fetch).
Local Abbreviation http_failure' :=
  (http_failure VITE_GEMINI_API_KEY systemPrompt stringify fetch).
Local Abbreviation empty_text' :=
  (empty_text VITE_GEMINI_API_KEY systemPrompt stringify fetch).
Local Abbreviation malformed_json' :=
  (malformed_json VITE_GEMINI_API_KEY systemPrompt stringify JSON_parse fetch).

(** The [try] block either stores the parsed payload as its last step,
    or throws; before that it only writes to the console.  It stores
    exactly when the call succeeds. *)
Lemma request_and_parse_cases (prompt : JSVal) (img : option jsstring) :
  (exists d t,
      succeeds' prompt img d
      /\ quiet t
      /\ request_and_parse' prompt img = (t ++ [SetAiData d], Normal tt))
  \/ (exists e t,
      (forall d, ~ succeeds' prompt img d)
      /\ quiet t
      /\ request_and_parse' prompt img = (t, Throw e)).
Proof.
  unfold succeeds, request_and_parse.
  fold (the_request' prompt img).
  destruct (fetch (the_request' prompt img)) as [r|e] eqn:Hfetch.
  2:{ right. exists e, []. split; [|both_sides].
      intros d (r & a & s & H & _). discriminate H. }
  eff.
  destruct (json r) as [apiData|e] eqn:Hjson.
  2:{ right. exists e, []. split; [|both_sides].
      intros d (r' & a & s & H & H' & _).
      injection H as <-. rewrite Hjson in H'. discriminate H'. }
  destruct (ok r) eqn:Hok.
  2:{ assert (Hno : forall d,
                 ~ (exists r' a s,
                       Normal r = Normal r' /\ json r' = Normal a
                       /\ ok r' = true
                       /\ extract_text a = Some (JStr s)
                       /\ s <> [] /\ JSON_parse (cleanJson s) = Normal d)).
      { intros d (r' & a & s & H & _ & H' & _).
        injection H as <-. rewrite Hok in H'. discriminate H'. }
      destruct (status r =? 503); [throws Hno|].
      destruct (JSON_null_dec apiData) as [->|Hnn]; [throws Hno|].
      eff. rewrite (get_prop_nonnull engine_message (lit "error") _ Hnn).
      throws Hno. }
  destruct (JSON_null_dec apiData) as [->|Hnn].
  { right. eexists; eexists. split; [|cbn [get_prop]; eff; both_sides].
    intros d (r' & a & s & H & H1 & _ & H2 & _).
    injection H as <-. rewrite Hjson in H1. injection H1 as <-.
    discriminate H2. }
  eff. rewrite (get_prop_nonnull engine_message (lit "candidates") _ Hnn).
  eff. fold (extract_text apiData).
  destruct (extract_text apiData) as [text|] eqn:Hext.
  2:{ right. eexists; eexists. split; [|eff; both_sides].
      intros d (r' & a & s & H & H1 & _ & H2 & _).
      injection H as <-. rewrite Hjson in H1. injection H1 as <-.
      rewrite Hext in H2. discriminate H2. }
  destruct (truthy (Some text)) eqn:Htext.
  2:{ right. eexists; eexists. split; [|eff; both_sides].
      intros d (r' & a & s & H & H1 & _ & H2 & H3 & _).
      injection H as <-. rewrite Hjson in H1. injection H1 as <-.
      rewrite Hext in H2. injection H2 as ->.
      destruct s; [congruence|discriminate Htext]. }
  destruct (JSON_str_dec text) as [[s ->]|Hns].
  2:{ assert (Hno : forall d,
                 ~ (exists r' a s,
                       Normal r = Normal r' /\ json r' = Normal a
                       /\ ok r' = true
                       /\ extract_text a = Some (JStr s)
                       /\ s <> [] /\ JSON_parse (cleanJson s) = Normal d)).
      { intros d (r' & a & s & H & H1 & _ & H2 & _).
        injection H as <-. rewrite Hjson in H1. injection H1 as <-.
        rewrite Hext in H2. injection H2 as ->.
        apply (Hns s). reflexivity. }
      destruct text; try (throws Hno).
      exfalso. eapply Hns. reflexivity. }
  eff.
  destruct (JSON_parse (cleanJson s)) as [d|e] eqn:Hparse.
  - left. exists d.
    exists [ConsoleLog (lit "API Response:") (LogValue (Some apiData));
            ConsoleLog (lit "Response OK:") (LogFlag true);
            ConsoleLog (lit "Extracted text:") (LogValue (Some (JStr s)))].
    split.
    + exists r, apiData, s. repeat split; auto.
      intros ->. discriminate Htext.
    + eff. both_sides.
  - right. exists e. eexists. split.
    + intros d (r' & a & s' & H & H1 & _ & H2 & _ & H3).
      injection H as <-. rewrite Hjson in H1. injection H1 as <-.
      rewrite Hext in H2. injection H2 as <-.
      rewrite Hparse in H3. discriminate H3.
    + eff. both_sides.
Qed.

(** The whole call: the two initial setter calls, the console output of
    the [try] block, then either the stored payload or the logged error
    and one alert, and the final [setLoading(false)]. *)
Lemma generateAIContent_cases (prompt : JSVal) (img : option jsstring) :
  (exists d t,
      succeeds' prompt img d
      /\ quiet t
      /\ generateAIContent' prompt img
         = (SetLoading true :: SetAiData None
              :: t ++ [SetAiData d; SetLoading false], Normal tt))
  \/ (exists e t msg,
      (forall d, ~ succeeds' prompt img d)
      /\ quiet t
      /\ classified msg e
      /\ generateAIContent' prompt img
         = (SetLoading true :: SetAiData None
              :: t ++ [ConsoleError (lit "AI Error:") (LogError e);
                       Alert msg; SetLoading false], Normal tt)).
Proof.
  unfold generateAIContent.
  destruct (request_and_parse_cases prompt img)
    as [(d & t & Hs & Hq & E)|(e & t & Hs & Hq & E)]; rewrite E.
  - left. exists d, t. repeat split; auto.
    eff. rewrite <- app_assoc. reflexivity.
  - right. destruct (report_failure_shape e) as (msg & Er & Hc).
    exists e, t, msg. repeat split; auto.
    cbn [try_catch]. rewrite Er. eff. rewrite <- app_assoc. reflexivity.
Qed.

Lemma http_failure_not_success (prompt : JSVal) (img : option jsstring) :
  http_failure' prompt img -> forall d, ~ succeeds' prompt img d.
Proof.
  intros (r & a & Hf & Hj & Hok) d (r' & a' & s & Hf' & _ & Hok' & _).
  rewrite Hf in Hf'. injection Hf' as <-. congruence.
Qed.

Lemma empty_text_not_success (prompt : JSVal) (img : option jsstring) :
  empty_text' prompt img -> forall d, ~ succeeds' prompt img d.
Proof.
  intros (r & a & Hf & Hj & Hok & Ht) d
         (r' & a' & s & Hf' & Hj' & _ & Hx & Hs & _).
  rewrite Hf in Hf'. injection Hf' as <-.
  rewrite Hj in Hj'. injection Hj' as <-.
  rewrite Hx in Ht. destruct s; [congruence|discriminate Ht].
Qed.

Lemma malformed_json_not_success (prompt : JSVal) (img : option jsstring) :
  malformed_json' prompt img -> forall d, ~ succeeds' prompt img d.
Proof.
  intros (r & a & s & e & Hf & Hj & Hok & Hx & Hs & Hp) d
         (r' & a' & s' & Hf' & Hj' & _ & Hx' & _ & Hp').
  rewrite Hf in Hf'. injection Hf' as <-.
  rewrite Hj in Hj'. injection Hj' as <-.
  rewrite Hx in Hx'. injection Hx' as <-.
  congruence.
Qed.

(** The state after a call: only [loading] and [aiData] are touched. *)
Lemma generateAIContent_state (prompt : JSVal) (img : option jsstring)
      (st : AppState) :
  let st' := after st (generateAIContent' prompt img) in
  isAuthenticated st' = isAuthenticated st
  /\ position st' = position st
  /\ address st' = address st
  /\ previewImage st' = previewImage st
  /\ login st' = login st
  /\ loading st' = false
  /\ ((forall d, ~ succeeds' prompt img d) -> aiData st' = None)
  /\ (forall d, succeeds' prompt img d -> aiData st' = d).
Proof.
  unfold after, trace.
  destruct (generateAIContent_cases prompt img)
    as [(d & t & Hs & Hq & E)|(e & t & msg & Hs & Hq & _ & E)];
    rewrite E; cbn [fst];
    change (SetLoading true :: SetAiData None :: ?x)
      with ([SetLoading true; SetAiData None] ++ x);
    rewrite !run_app, (run_quiet t _ Hq); cbn;
    repeat split; auto.
  - intros Hno. destruct (Hno d Hs).
  - intros d' (r1 & a1 & s1 & F1 & J1 & _ & X1 & _ & P1).
    destruct Hs as (r2 & a2 & s2 & F2 & J2 & _ & X2 & _ & P2).
    rewrite F1 in F2. injection F2 as <-.
    rewrite J1 in J2. injection J2 as <-.
    rewrite X1 in X2. injection X2 as <-.
    congruence.
  - intros d Hd. destruct (Hs d Hd).
Qed.

End GenerativeCall.

(** ** Fenced responses *)

(** C1.  A response text written between code-fence markers is cleaned
    to the same string as the text without the markers, and therefore
    [JSON.parse], whatever it answers, answers the same for both.  This
    holds for a fenced block with the markers on lines of their own, with
    or without the [json] tag on the opening marker, and also for the
    tagged marker and the closing marker glued to the text. *)
Theorem fenced_text_parses_identically
        (JSON_parse : jsstring -> Completion (option AIResponse))
        (t : jsstring) :
  cleanJson (fenced fence_json t) = cleanJson t
  /\ cleanJson (fenced fence t) = cleanJson t
  /\ cleanJson (fence_json ++ t ++ fence) = cleanJson t
  /\ JSON_parse (cleanJson (fenced fence_json t)) = JSON_parse (cleanJson t)
  /\ JSON_parse (cleanJson (fenced fence t)) = JSON_parse (cleanJson t)
  /\ JSON_parse (cleanJson (fence_json ++ t ++ fence))
     = JSON_parse (cleanJson t).
Proof.
  rewrite cleanJson_fenced_json, cleanJson_fenced_plain, cleanJson_glued_json.
  repeat split; reflexivity.
Qed.

(** ** Inline emphasis *)

(** C9, as stated, fails: three stars contain no fragment matched by the
    pattern, so nothing is to be removed from them, yet the single part
    passes the start-and-end test and is rendered as an empty bold span. *)
Lemma three_stars_vanish :
  segments three_stars = [Between three_stars]
  /\ RichText three_stars = [Bold []]
  /\ delimiters_removed three_stars = three_stars
  /\ rendered_text (RichText three_stars) <> delimiters_removed three_stars.
Proof.
  repeat split; try reflexivity. discriminate.
Qed.

(** C9, amended.  The parts of the split concatenate to the content; a
    part is rendered bold, through [slice(2, -2)], exactly when it both
    starts and ends with two stars, and verbatim otherwise; every
    fragment matched by the pattern is rendered bold without its two
    delimiters; and when no text between the matches itself starts and
    ends with two stars, the rendered text is the content with the
    delimiters of the matched fragments removed. *)
Theorem rich_text_rendering (content : jsstring) :
  concat (split_bold content) = content
  /\ RichText content = List.map render_part (split_bold content)
  /\ (forall part,
         In part (split_bold content) ->
         (is_bold_part part = true
          /\ render_part part = Bold (slice_2_m2 part))
         \/ (is_bold_part part = false /\ render_part part = Plain part))
  /\ List.map segment_text (segments content) = split_bold content
  /\ (forall m,
         In (Matched m) (segments content) ->
         exists mid,
           m = bold_mark ++ mid ++ bold_mark /\ render_part m = Bold mid)
  /\ (forallb between_is_plain (segments content) = true ->
      rendered_text (RichText content) = delimiters_removed content).
Proof.
  split; [|split; [|split; [|split; [|split]]]].
  - unfold split_bold. rewrite split_go_concat. reflexivity.
  - reflexivity.
  - intros part _. unfold render_part.
    destruct (is_bold_part part); [left|right]; split; reflexivity.
  - apply split_go_segments.
  - intros m. apply matched_segments_delimited.
  - intros H. unfold RichText, split_bold, delimiters_removed.
    rewrite (rendered_text_segments content [] O H). reflexivity.
Qed.

Lemma rich_text_rendering_witness :
  forallb between_is_plain (segments sample_content) = true
  /\ In (Matched (lit "**Red Fort**")) (segments sample_content)
  /\ rendered_text (RichText sample_content) = lit "The Red Fort of Delhi".
Proof.
  pose proof (rich_text_rendering sample_content)
    as (_ & _ & _ & _ & _ & H).
  split; [reflexivity|]. split; [right; left; reflexivity|].
  rewrite (H eq_refl). reflexivity.
Defined.

(** ** The result card *)

(** C4, as stated, fails: a fallback message that is present but empty is
    not shown; the default text is shown in its place. *)
Lemma empty_fallback_message_not_shown :
  isLocation blank_response = false
  /\ fallbackMessage blank_response = Some []
  /\ ResultCard (Some blank_response) false = AnalysisFailed default_fallback
  /\ ResultCard (Some blank_response) false <> AnalysisFailed [].
Proof.
  repeat split; try reflexivity. discriminate.
Qed.

(** C4, amended.  For a stored response whose [isLocation] is false, the
    card (when not loading) is the failure panel; it shows the fallback
    message when one is present and not empty, the default text when it
    is absent or empty; and none of the narrative panels is rendered. *)
Theorem not_a_location_renders_failure_panel (d : AIResponse) :
  isLocation d = false ->
  (forall m, fallbackMessage d = Some m -> m <> [] ->
             ResultCard (Some d) false = AnalysisFailed m)
  /\ (fallbackMessage d = None \/ fallbackMessage d = Some [] ->
      ResultCard (Some d) false = AnalysisFailed default_fallback)
  /\ panels_of (ResultCard (Some d) false) = [].
Proof.
  intros Hloc. unfold ResultCard. rewrite Hloc. cbn [negb panels_of].
  repeat split.
  - intros m Hm Hne. rewrite Hm. destruct m; [congruence|reflexivity].
  - intros [H|H]; rewrite H; reflexivity.
Qed.

Lemma not_a_location_renders_failure_panel_witness :
  isLocation blurry_photo = false
  /\ ResultCard (Some blurry_photo) false
     = AnalysisFailed (lit "The photo is too blurry.")
  /\ panels_of (ResultCard (Some blurry_photo) false) = [].
Proof.
  pose proof (not_a_location_renders_failure_panel blurry_photo eq_refl)
    as (H1 & _ & H3).
  split; [reflexivity|]. split; [|exact H3].
  apply H1; [reflexivity|discriminate].
Defined.

(** ** The access gate *)

Lemma str_eqb_eq (a b : jsstring) : str_eqb a b = true <-> a = b.
Proof.
  revert b. induction a as [|x a IH]; intros [|y b]; simpl;
    try (split; [discriminate|discriminate]); try tauto.
  rewrite andb_true_iff, N.eqb_eq, IH. split.
  - intros [-> ->]. reflexivity.
  - intros H. injection H as -> ->. auto.
Qed.

Lemma str_eqb_neq (a b : jsstring) : str_eqb a b = false <-> a <> b.
Proof.
  rewrite <- str_eqb_eq. destruct (str_eqb a b); split; congruence.
Qed.

Lemma handleSubmit_match (env : option jsstring) (callback : Eff unit)
      (s : jsstring) :
  s = APP_PASSWORD env ->
  handleSubmit env callback s
  = (emit PreventDefault ;;; emit (LoginSetLoading true) ;;; callback).
Proof.
  intros H. apply str_eqb_eq in H. unfold handleSubmit. rewrite H.
  reflexivity.
Qed.

Lemma handleSubmit_mismatch (env : option jsstring) (callback : Eff unit)
      (s : jsstring) :
  s <> APP_PASSWORD env ->
  handleSubmit env callback s
  = ([PreventDefault; LoginSetLoading true;
      LoginSetError true; LoginSetLoading false], Normal tt).
Proof.
  intros H. apply str_eqb_neq in H. unfold handleSubmit. rewrite H.
  reflexivity.
Qed.

Lemma submit_match (env : option jsstring) (st : AppState) :
  pass (login st) = APP_PASSWORD env ->
  isAuthenticated (after st (submit env st)) = true
  /\ unlocked (App (after st (submit env st))) = true.
Proof.
  intros H. unfold submit. rewrite (handleSubmit_match env onLogin _ H).
  split; reflexivity.
Qed.

Lemma submit_mismatch (env : option jsstring) (st : AppState) :
  pass (login st) <> APP_PASSWORD env ->
  trace (submit env st)
  = [PreventDefault; LoginSetLoading true;
     LoginSetError true; LoginSetLoading false]
  /\ error (login (after st (submit env st))) = true
  /\ isAuthenticated (after st (submit env st)) = isAuthenticated st
  /\ (isAuthenticated st = false ->
      unlocked (App (after st (submit env st))) = false
      /\ error_indicator_shown (App (after st (submit env st))) = true).
Proof.
  intros H. unfold submit. rewrite (handleSubmit_mismatch env onLogin _ H).
  split; [reflexivity|]. split; [reflexivity|]. split; [reflexivity|].
  intros Hst. unfold App, after, run, trace. cbn. rewrite Hst.
  split; reflexivity.
Qed.

(** C2.  Submitting the configured password runs the unlock callback
    (with the callback of [App], the main view is shown afterwards);
    submitting any other string runs no callback, whatever it is, sets
    the error flag, and leaves the authenticated flag as it was, so the
    login screen stays, now with its error indicator. *)
Theorem login_gate (VITE_APP_PASSWORD : option jsstring)
        (callback : Eff unit) (st : AppState) :
  let s := pass (login st) in
  (s = APP_PASSWORD VITE_APP_PASSWORD ->
     handleSubmit VITE_APP_PASSWORD callback s
     = (emit PreventDefault ;;; emit (LoginSetLoading true) ;;; callback)
     /\ isAuthenticated (after st (submit VITE_APP_PASSWORD st)) = true
     /\ unlocked (App (after st (submit VITE_APP_PASSWORD st))) = true)
  /\ (s <> APP_PASSWORD VITE_APP_PASSWORD ->
     handleSubmit VITE_APP_PASSWORD callback s
     = ([PreventDefault; LoginSetLoading true;
         LoginSetError true; LoginSetLoading false], Normal tt)
     /\ error (login (after st (submit VITE_APP_PASSWORD st))) = true
     /\ isAuthenticated (after st (submit VITE_APP_PASSWORD st))
        = isAuthenticated st
     /\ (isAuthenticated st = false ->
         unlocked (App (after st (submit VITE_APP_PASSWORD st))) = false
         /\ error_indicator_shown
              (App (after st (submit VITE_APP_PASSWORD st))) = true)).
Proof.
  cbv zeta. split; intros H.
  - split; [apply handleSubmit_match; exact H|].
    apply submit_match. exact H.
  - split; [apply handleSubmit_mismatch; exact H|].
    apply (submit_mismatch VITE_APP_PASSWORD st H).
Qed.

Lemma login_gate_witness :
  (isAuthenticated
     (after (typed (lit "s3cret"))
            (submit (Some (lit "s3cret")) (typed (lit "s3cret")))) = true)
  /\ (error_indicator_shown
        (App (after (typed (lit "guess"))
                    (submit (Some (lit "s3cret")) (typed (lit "guess")))))
      = true).
Proof.
  split.
  - apply (login_gate (Some (lit "s3cret")) onLogin (typed (lit "s3cret"))).
    reflexivity.
  - apply (login_gate (Some (lit "s3cret")) onLogin (typed (lit "guess"))).
    + discriminate.
    + reflexivity.
Defined.

(** C8.  With the password variable unset or empty the gate falls back
    to the built-in password: submitting it unlocks the main view, and
    every other string is rejected with the error indicator. *)
Theorem default_password (VITE_APP_PASSWORD : option jsstring)
        (st : AppState) :
  VITE_APP_PASSWORD = None \/ VITE_APP_PASSWORD = Some [] ->
  isAuthenticated st = false ->
  APP_PASSWORD VITE_APP_PASSWORD = lit "AmbujAI"
  /\ (pass (login st) = lit "AmbujAI" ->
      unlocked (App (after st (submit VITE_APP_PASSWORD st))) = true)
  /\ (pass (login st) <> lit "AmbujAI" ->
      unlocked (App (after st (submit VITE_APP_PASSWORD st))) = false
      /\ error_indicator_shown
           (App (after st (submit VITE_APP_PASSWORD st))) = true
      /\ trace (submit VITE_APP_PASSWORD st)
         = [PreventDefault; LoginSetLoading true;
            LoginSetError true; LoginSetLoading false]).
Proof.
  intros Henv Hst.
  assert (E : APP_PASSWORD VITE_APP_PASSWORD = lit "AmbujAI")
    by (destruct Henv as [-> | ->]; reflexivity).
  split; [exact E|]. rewrite <- E. split.
  - intros H. apply submit_match. exact H.
  - intros H.
    destruct (submit_mismatch VITE_APP_PASSWORD st H) as (Ht & _ & _ & Hv).
    destruct (Hv Hst) as [H1 H2]. auto.
Qed.

Lemma default_password_witness :
  unlocked (App (after (typed (lit "AmbujAI"))
                       (submit None (typed (lit "AmbujAI"))))) = true
  /\ unlocked (App (after (typed (lit "ambujai"))
                          (submit (Some []) (typed (lit "ambujai"))))) = false.
Proof.
  split.
  - apply (default_password None (typed (lit "AmbujAI")));
      [left; reflexivity|reflexivity|reflexivity].
  - apply (default_password (Some []) (typed (lit "ambujai")));
      [right; reflexivity|reflexivity|discriminate].
Defined.

(** ** Calls to the generative endpoint *)

Section NarratorClaims.

Variable VITE_GEMINI_API_KEY : option jsstring.
Variable systemPrompt : jsstring -> jsstring.
Variable stringify : JSVal -> jsstring.
Variable engine_message : EngineFault -> jsstring.
Variable JSON_parse : jsstring -> Completion (option AIResponse).
Variable fetch : Request -> Completion Response.

Local Abbreviation call :=
  (generateAIContent VITE_GEMINI_API_KEY systemPrompt stringify
                     engine_message JSON_parse fetch).
Local Abbreviation call_succeeds :=
  (succeeds VITE_GEMINI_API_KEY systemPrompt stringify JSON_parse fetch).
Local Abbreviation call_http_failure :=
  (http_failure VITE_GEMINI_API_KEY systemPrompt stringify fetch).
Local Abbreviation call_empty_text :=
  (empty_text VITE_GEMINI_API_KEY systemPrompt stringify fetch).
Local Abbreviation call_malformed_json :=
  (malformed_json VITE_GEMINI_API_KEY systemPrompt stringify JSON_parse fetch).

(** C3, amended.  No error leaves [generateAIContent].  When the response
    has a non-success status, or carries no text, or its cleaned text is
    not valid JSON, the error is logged and exactly one alert is shown,
    with the busy, the invalid-key or the generic message.  The alert is
    shown exactly when the call does not succeed, which also covers a
    rejected request, an unreadable or null body and a text that is not
    a string; on success no alert is shown. *)
Theorem ai_failure_reported (prompt : JSVal) (img : option jsstring) :
  completion (call prompt img) = Normal tt
  /\ (call_http_failure prompt img \/ call_empty_text prompt img
      \/ call_malformed_json prompt img ->
      exists e msg,
        In (ConsoleError (lit "AI Error:") (LogError e))
           (trace (call prompt img))
        /\ alerts (trace (call prompt img)) = [Alert msg]
        /\ classified msg e)
  /\ ((forall d, ~ call_succeeds prompt img d) ->
      exists e msg,
        In (ConsoleError (lit "AI Error:") (LogError e))
           (trace (call prompt img))
        /\ alerts (trace (call prompt img)) = [Alert msg]
        /\ classified msg e)
  /\ (alerts (trace (call prompt img)) <> [] ->
      forall d, ~ call_succeeds prompt img d)
  /\ (forall d, call_succeeds prompt img d ->
      alerts (trace (call prompt img)) = []).
Proof.
  assert (Hfail : (forall d, ~ call_succeeds prompt img d) ->
      exists e msg,
        In (ConsoleError (lit "AI Error:") (LogError e))
           (trace (call prompt img))
        /\ alerts (trace (call prompt img)) = [Alert msg]
        /\ classified msg e).
  { intros Hno.
    destruct (generateAIContent_cases VITE_GEMINI_API_KEY systemPrompt
                stringify engine_message JSON_parse fetch prompt img)
      as [(d & t & Hs & _)|(e & t & msg & _ & Hq & Hc & E)].
    - destruct (Hno d Hs).
    - exists e, msg. rewrite E. cbn [trace fst]. repeat split; auto.
      + right; right. apply in_or_app. right. left. reflexivity.
      + change (SetLoading true :: SetAiData None :: ?x)
          with ([SetLoading true; SetAiData None] ++ x).
        rewrite !alerts_app, (alerts_quiet t Hq). reflexivity. }
  assert (Hok : forall d, call_succeeds prompt img d ->
                          alerts (trace (call prompt img)) = []).
  { intros d Hd.
    destruct (generateAIContent_cases VITE_GEMINI_API_KEY systemPrompt
                stringify engine_message JSON_parse fetch prompt img)
      as [(d' & t & _ & Hq & E)|(e & t & msg & Hno & _)].
    - rewrite E. cbn [trace fst].
      change (SetLoading true :: SetAiData None :: ?x)
        with ([SetLoading true; SetAiData None] ++ x).
      rewrite !alerts_app, (alerts_quiet t Hq). reflexivity.
    - destruct (Hno d Hd). }
  split; [|split; [|split; [exact Hfail|split; [|exact Hok]]]].
  - destruct (generateAIContent_cases VITE_GEMINI_API_KEY systemPrompt
                stringify engine_message JSON_parse fetch prompt img)
      as [(d & t & _ & _ & E)|(e & t & msg & _ & _ & _ & E)];
      rewrite E; reflexivity.
  - intros [H|[H|H]]; apply Hfail.
    + apply http_failure_not_success. exact H.
    + apply empty_text_not_success. exact H.
    + apply malformed_json_not_success. exact H.
  - intros Ha d Hd. apply Ha. apply (Hok d Hd).
Qed.

(** C10.  Every call starts with [setLoading(true)] and [setAiData(null)];
    it always returns, and when it does the loading flag is false; on
    every failing path the stored result is null. *)
Theorem loading_cleared_on_every_path (prompt : JSVal)
        (img : option jsstring) (st : AppState) :
  (exists rest,
      trace (call prompt img) = SetLoading true :: SetAiData None :: rest
      /\ loading (run st [SetLoading true; SetAiData None]) = true
      /\ aiData (run st [SetLoading true; SetAiData None]) = None)
  /\ completion (call prompt img) = Normal tt
  /\ loading (after st (call prompt img)) = false
  /\ ((forall d, ~ call_succeeds prompt img d) ->
      aiData (after st (call prompt img)) = None)
  /\ (call_http_failure prompt img \/ call_empty_text prompt img
      \/ call_malformed_json prompt img ->
      aiData (after st (call prompt img)) = None)
  /\ (forall d, call_succeeds prompt img d ->
      aiData (after st (call prompt img)) = d).
Proof.
  pose proof (generateAIContent_state VITE_GEMINI_API_KEY systemPrompt
                stringify engine_message JSON_parse fetch prompt img st)
    as (_ & _ & _ & _ & _ & Hl & Hn & Hs).
  split; [|split; [|split; [exact Hl|split; [exact Hn|split; [|exact Hs]]]]].
  - destruct (generateAIContent_cases VITE_GEMINI_API_KEY systemPrompt
                stringify engine_message JSON_parse fetch prompt img)
      as [(d & t & _ & _ & E)|(e & t & msg & _ & _ & _ & E)];
      rewrite E; eexists; repeat split; reflexivity.
  - destruct (generateAIContent_cases VITE_GEMINI_API_KEY systemPrompt
                stringify engine_message JSON_parse fetch prompt img)
      as [(d & t & _ & _ & E)|(e & t & msg & _ & _ & _ & E)];
      rewrite E; reflexivity.
  - intros [H|[H|H]]; apply Hn.
    + apply http_failure_not_success. exact H.
    + apply empty_text_not_success. exact H.
    + apply malformed_json_not_success. exact H.
Qed.

End NarratorClaims.

(** ** Map clicks and uploads *)

Section MapClaims.

Variable VITE_GEMINI_API_KEY : option jsstring.
Variable systemPrompt : jsstring -> jsstring.
Variable stringify : JSVal -> jsstring.
Variable engine_message : EngineFault -> jsstring.
Variable JSON_parse : jsstring -> Completion (option AIResponse).
Variable fetch : Request -> Completion Response.
Variable axios_get : Q -> Q -> Completion JSVal.
Variable File : Type.
Variable readAsDataURL : File -> option jsstring.

Local Abbreviation call :=
  (generateAIContent VITE_GEMINI_API_KEY systemPrompt stringify
                     engine_message JSON_parse fetch).
Local Abbreviation geocode := (fetchAddress engine_message axios_get).
Local Abbreviation click :=
  (handleMapClick VITE_GEMINI_API_KEY systemPrompt stringify
                  engine_message JSON_parse fetch axios_get).
Local Abbreviation upload :=
  (@handleImageUpload VITE_GEMINI_API_KEY systemPrompt stringify
                      engine_message JSON_parse fetch File readAsDataURL).

(** [fetchAddress] has a catch-all: it always returns a value and leaves
    no trace. *)
Lemma fetchAddress_total (lat lng : Q) :
  exists v, geocode lat lng = ([], Normal v).
Proof.
  unfold fetchAddress.
  destruct (axios_get lat lng) as [[data|]|e]; eff;
    try (eexists; reflexivity).
  destruct data; cbn [get_prop]; eff; eexists; reflexivity.
Qed.

Lemma call_returns (prompt : JSVal) (img : option jsstring) :
  completion (call prompt img) = Normal tt.
Proof.
  destruct (generateAIContent_cases VITE_GEMINI_API_KEY systemPrompt
              stringify engine_message JSON_parse fetch prompt img)
    as [(d & t & _ & _ & E)|(e & t & msg & _ & _ & _ & E)];
    rewrite E; reflexivity.
Qed.

(** A map click: the position is stored, the preview dropped, the label
    set to what [fetchAddress] answered, and the call made with it. *)
Lemma handleMapClick_after (latlng : LatLng) (v : JSVal) (st : AppState) :
  geocode (lat latlng) (lng latlng) = ([], Normal v) ->
  completion (click latlng) = Normal tt
  /\ after st (click latlng)
     = after (run st [SetPosition (Some latlng); SetPreviewImage None;
                      SetAddress v])
             (call v None).
Proof.
  intros H. unfold handleMapClick. rewrite H. eff.
  pose proof (call_returns v None) as Hc.
  destruct (call v None) as [t c]. cbn in Hc. subst c.
  split; reflexivity.
Qed.

Lemma handleMapClick_label (latlng : LatLng) (v : JSVal) (st : AppState) :
  geocode (lat latlng) (lng latlng) = ([], Normal v) ->
  completion (click latlng) = Normal tt
  /\ address (after st (click latlng)) = v
  /\ position (after st (click latlng)) = Some latlng
  /\ (isAuthenticated st = true ->
      target_label (App (after st (click latlng))) = Some v).
Proof.
  intros H. destruct (handleMapClick_after latlng v st H) as [Hc E].
  pose proof (generateAIContent_state VITE_GEMINI_API_KEY systemPrompt
                stringify engine_message JSON_parse fetch v None
                (run st [SetPosition (Some latlng); SetPreviewImage None;
                         SetAddress v]))
    as (Hauth & Hpos & Haddr & _).
  rewrite <- E in Hauth, Hpos, Haddr.
  split; [exact Hc|]. split; [exact Haddr|]. split; [exact Hpos|].
  intros Hst.
  assert (Ha : isAuthenticated (after st (click latlng)) = true)
    by (rewrite Hauth; exact Hst).
  unfold App. rewrite Ha. cbn [negb target_label]. rewrite Haddr.
  reflexivity.
Qed.

(** C5.  When the reverse-geocoding request fails, [fetchAddress] does
    not throw: it returns the fixed string, which [handleMapClick] stores
    and the "Target" label shows. *)
Theorem geocode_failure_falls_back (latlng : LatLng) (e : JSError)
        (st : AppState) :
  axios_get (lat latlng) (lng latlng) = Throw e ->
  geocode (lat latlng) (lng latlng)
  = ([], Normal (Some (JStr (lit "Selected Location"))))
  /\ completion (click latlng) = Normal tt
  /\ address (after st (click latlng))
     = Some (JStr (lit "Selected Location"))
  /\ (isAuthenticated st = true ->
      target_label (App (after st (click latlng)))
      = Some (Some (JStr (lit "Selected Location")))).
Proof.
  intros H.
  assert (E : geocode (lat latlng) (lng latlng)
              = ([], Normal (Some (JStr (lit "Selected Location"))))).
  { unfold fetchAddress. rewrite H. reflexivity. }
  destruct (handleMapClick_label latlng _ st E) as (Hc & Ha & _ & Hv).
  auto.
Qed.

(** C6.  When the reverse-geocoding request succeeds with a body whose
    display name is a non-empty string, [fetchAddress] returns exactly
    that string, [handleMapClick] stores it, and the "Target" label
    shows it. *)
Theorem geocode_success_shows_display_name (latlng : LatLng)
        (fields : list (jsstring * JSON)) (name : jsstring)
        (st : AppState) :
  axios_get (lat latlng) (lng latlng) = Normal (Some (JObj fields)) ->
  lookup (lit "display_name") fields = Some (JStr name) ->
  name <> [] ->
  geocode (lat latlng) (lng latlng) = ([], Normal (Some (JStr name)))
  /\ address (after st (click latlng)) = Some (JStr name)
  /\ (isAuthenticated st = true ->
      target_label (App (after st (click latlng)))
      = Some (Some (JStr name))).
Proof.
  intros H Hl Hne.
  assert (E : geocode (lat latlng) (lng latlng)
              = ([], Normal (Some (JStr name)))).
  { unfold fetchAddress. rewrite H. eff. cbn [get_prop get_prop_opt]. eff.
    rewrite Hl. destruct name; [congruence|reflexivity]. }
  destruct (handleMapClick_label latlng _ st E) as (_ & Ha & _ & Hv).
  auto.
Qed.

Lemma base64_of_nonempty (url b : jsstring) :
  base64_of (Some url) = Some b -> url <> [].
Proof. intros H ->. discriminate H. Qed.

(** C7.  An upload whose data URL yields a base64 payload stores the
    data URL as the preview image and clears the position: the thumbnail
    is rendered and the marker is not. *)
Theorem image_upload_sets_preview_clears_position (f : File)
        (url b : jsstring) (st : AppState) :
  readAsDataURL f = Some url ->
  base64_of (Some url) = Some b ->
  b <> [] ->
  previewImage (after st (upload (Some f))) = Some url
  /\ position (after st (upload (Some f))) = None
  /\ (isAuthenticated st = true ->
      thumbnail (App (after st (upload (Some f)))) = Some url
      /\ marker_of (App (after st (upload (Some f)))) = None).
Proof.
  intros Hr Hb Hne.
  pose proof (base64_of_nonempty url b Hb) as Hurl.
  unfold handleImageUpload. rewrite Hr, Hb.
  destruct b as [|c b]; [congruence|].
  pose proof (generateAIContent_state VITE_GEMINI_API_KEY systemPrompt
                stringify engine_message JSON_parse fetch
                (Some (JStr [])) (Some (c :: b))
                (run st [SetPreviewImage (Some url);
                         SetAddress (Some (JStr (lit "Analyzing image...")));
                         SetPosition None]))
    as (Hauth & Hpos & _ & Hprev & _).
  pose proof (call_returns (Some (JStr [])) (Some (c :: b))) as Hc.
  destruct (call (Some (JStr [])) (Some (c :: b))) as [t r].
  cbn in Hc. subst r.
  assert (E : after st
                (emit (SetPreviewImage (Some url)) ;;;
                 emit (SetAddress (Some (JStr (lit "Analyzing image...")))) ;;;
                 emit (SetPosition None) ;;; (t, Normal tt))
              = after (run st [SetPreviewImage (Some url);
                     SetAddress (Some (JStr (lit "Analyzing image...")));
                     SetPosition None]) (t, Normal tt)) by reflexivity.
  rewrite E. split; [exact Hprev|]. split; [exact Hpos|].
  intros Hst. unfold App. rewrite Hauth.
  change (isAuthenticated (run st _)) with (isAuthenticated st).
  rewrite Hst. cbn [negb thumbnail marker_of].
  rewrite Hprev, Hpos.
  change (previewImage (run st _)) with (Some url).
  change (position (run st _)) with (@None LatLng).
  destruct url; [congruence|]. split; reflexivity.
Qed.

End MapClaims.

(** ** Concrete runs *)

(** C3, as stated, fails in its last part: when the request itself is
    rejected the alert is shown, although there is no response at all,
    hence no status, no text and nothing to parse. *)
Lemma alert_without_a_response :
  alerts (trace (generateAIContent None demo_prompt demo_stringify
                   demo_engine_message demo_parse offline
                   (Some (JStr red_fort)) None))
  = [Alert (generic_alert (lit "Failed to fetch"))]
  /\ ~ (http_failure None demo_prompt demo_stringify offline
          (Some (JStr red_fort)) None
        \/ empty_text None demo_prompt demo_stringify offline
             (Some (JStr red_fort)) None
        \/ malformed_json None demo_prompt demo_stringify demo_parse offline
             (Some (JStr red_fort)) None).
Proof.
  split; [reflexivity|].
  intros [(r & a & H & _)|[(r & a & H & _)|(r & a & s & e & H & _)]];
    discriminate H.
Qed.

Lemma ai_failure_reported_witness :
  http_failure None demo_prompt demo_stringify overloaded
               (Some (JStr red_fort)) None
  /\ exists e msg,
      In (ConsoleError (lit "AI Error:") (LogError e))
         (trace (generateAIContent None demo_prompt demo_stringify
                   demo_engine_message demo_parse overloaded
                   (Some (JStr red_fort)) None))
      /\ alerts (trace (generateAIContent None demo_prompt demo_stringify
                   demo_engine_message demo_parse overloaded
                   (Some (JStr red_fort)) None)) = [Alert msg]
      /\ classified msg e.
Proof.
  assert (H : http_failure None demo_prompt demo_stringify overloaded
                           (Some (JStr red_fort)) None).
  { eexists; eexists. repeat split; reflexivity. }
  split; [exact H|].
  destruct (ai_failure_reported None demo_prompt demo_stringify
              demo_engine_message demo_parse overloaded
              (Some (JStr red_fort)) None) as (_ & Hf & _).
  apply Hf. left. exact H.
Defined.

Lemma loading_cleared_on_every_path_witness :
  http_failure None demo_prompt demo_stringify overloaded
               (Some (JStr red_fort)) None
  /\ aiData (after signed_in
               (generateAIContent None demo_prompt demo_stringify
                  demo_engine_message demo_parse overloaded
                  (Some (JStr red_fort)) None)) = None.
Proof.
  assert (H : http_failure None demo_prompt demo_stringify overloaded
                           (Some (JStr red_fort)) None).
  { eexists; eexists. repeat split; reflexivity. }
  split; [exact H|].
  destruct (loading_cleared_on_every_path None demo_prompt demo_stringify
              demo_engine_message demo_parse overloaded
              (Some (JStr red_fort)) None signed_in)
    as (_ & _ & _ & _ & Hf & _).
  apply Hf. left. exact H.
Defined.

Lemma geocode_failure_falls_back_witness :
  geocoder_down (lat delhi) (lng delhi)
  = Throw (mkError (lit "Network Error"))
  /\ target_label
       (App (after signed_in
               (handleMapClick None demo_prompt demo_stringify
                  demo_engine_message demo_parse offline geocoder_down
                  delhi)))
     = Some (Some (JStr (lit "Selected Location"))).
Proof.
  split; [reflexivity|].
  apply (geocode_failure_falls_back None demo_prompt demo_stringify
           demo_engine_message demo_parse offline geocoder_down
           delhi (mkError (lit "Network Error")) signed_in);
    reflexivity.
Defined.

Lemma geocode_success_shows_display_name_witness :
  lookup (lit "display_name")
         [(lit "place_id", JNum 1); (lit "display_name", JStr red_fort)]
  = Some (JStr red_fort)
  /\ target_label
       (App (after signed_in
               (handleMapClick None demo_prompt demo_stringify
                  demo_engine_message demo_parse offline geocoder_up
                  delhi)))
     = Some (Some (JStr red_fort)).
Proof.
  split; [reflexivity|].
  apply (geocode_success_shows_display_name None demo_prompt demo_stringify
           demo_engine_message demo_parse offline geocoder_up delhi
           [(lit "place_id", JNum 1); (lit "display_name", JStr red_fort)]
           red_fort signed_in);
    reflexivity || discriminate.
Defined.

Lemma image_upload_sets_preview_clears_position_witness :
  base64_of (Some photo_url) = Some (lit "QUJD")
  /\ previewImage
       (after signed_in
          (handleImageUpload None demo_prompt demo_stringify
             demo_engine_message demo_parse offline read_photo (Some tt)))
     = Some photo_url
  /\ position
       (after signed_in
          (handleImageUpload None demo_prompt demo_stringify
             demo_engine_message demo_parse offline read_photo (Some tt)))
     = None.
Proof.
  split; [reflexivity|].
  destruct (image_upload_sets_preview_clears_position None demo_prompt
              demo_stringify demo_engine_message demo_parse offline
              unit read_photo tt photo_url (lit "QUJD") signed_in)
    as (H1 & H2 & _); try reflexivity; try discriminate.
  split; assumption.
Defined.

(** * Further properties *)

(** ** The cleaned text *)

Lemma includes_cons (p s : jsstring) (c : code_unit) :
  includes p (c :: s) = startsWith p (c :: s) || includes p s.
Proof. reflexivity. Qed.

Lemma startsWith_app_r (p a w : jsstring) :
  startsWith p a = true -> startsWith p (a ++ w) = true.
Proof.
  revert a. induction p as [|x p IH]; intros [|y a]; simpl;
    try reflexivity; try discriminate.
  intros H. apply andb_true_iff in H. destruct H as [-> H].
  apply IH. exact H.
Qed.

Lemma startsWith_pat_prefix (p q s : jsstring) :
  startsWith (p ++ q) s = true -> startsWith p s = true.
Proof.
  revert s. induction p as [|x p IH]; intros s; [reflexivity|].
  destruct s as [|y s]; cbn [app startsWith]; [discriminate|].
  intros H. apply andb_true_iff in H. destruct H as [-> H].
  apply IH. exact H.
Qed.

Lemma includes_app_r (p a w : jsstring) :
  includes p a = true -> includes p (a ++ w) = true.
Proof.
  induction a as [|c a IH].
  - cbn [includes app]. rewrite orb_false_r. intros H.
    destruct p; [destruct w; reflexivity|discriminate H].
  - cbn [app]. rewrite !includes_cons. intros H.
    apply orb_true_iff in H. apply orb_true_iff. destruct H as [H|H].
    + left. apply (startsWith_app_r _ (c :: a)). exact H.
    + right. apply IH. exact H.
Qed.

Lemma includes_app_l (p w a : jsstring) :
  includes p a = true -> includes p (w ++ a) = true.
Proof.
  intros H. induction w as [|c w IH]; [exact H|].
  cbn [app]. rewrite includes_cons, IH. apply orb_true_r.
Qed.

Lemma trimStart_suffix (s : jsstring) : exists w, s = w ++ trimStart s.
Proof.
  induction s as [|c s [w IH]].
  - exists []. reflexivity.
  - simpl. destruct (isTrimmed c).
    + exists (c :: w). simpl. f_equal. exact IH.
    + exists []. reflexivity.
Qed.

Lemma trim_substring (s : jsstring) :
  exists w1 w2, s = w1 ++ trim s ++ w2.
Proof.
  unfold trim, trimEnd.
  destruct (trimStart_suffix s) as [w1 E1].
  destruct (trimStart_suffix (rev (trimStart s))) as [w2 E2].
  exists w1, (rev w2).
  rewrite <- rev_app_distr, <- E2, rev_involutive. exact E1.
Qed.

Lemma includes_trim (p s : jsstring) :
  includes p (trim s) = true -> includes p s = true.
Proof.
  intros H. destruct (trim_substring s) as (w1 & w2 & E).
  rewrite E. apply includes_app_l, includes_app_r. exact H.
Qed.

Lemma removeAll_fence_clean (x : jsstring) :
  includes fence (removeAll fence x) = false.
Proof.
  remember (length x) as n eqn:Hn.
  revert x Hn. induction n as [n IH] using lt_wf_ind. intros x Hn.
  destruct x as [|a x]; [reflexivity|].
  destruct (N.eqb_spec a backtick) as [->|Ha].
  2:{ assert (E : forall r, startsWith fence (a :: r) = false).
      { intros r. unfold fence. cbn [startsWith].
        destruct (N.eqb_spec backtick a); [congruence|reflexivity]. }
      rewrite removeAll_fence_keep by apply E.
      rewrite includes_cons, E. cbn [orb].
      apply (IH (length x) ltac:(subst n; simpl; lia) x eq_refl). }
  destruct x as [|b x]; [reflexivity|].
  destruct (N.eqb_spec b backtick) as [->|Hb].
  2:{ assert (E : forall r, startsWith fence (backtick :: b :: r) = false).
      { intros r. unfold fence. cbn [startsWith]. rewrite N.eqb_refl.
        destruct (N.eqb_spec backtick b); [congruence|reflexivity]. }
      rewrite removeAll_fence_keep by apply E.
      pose proof (IH (length (b :: x)) ltac:(subst n; simpl; lia)
                     (b :: x) eq_refl) as Hx.
      assert (Eb : forall r, startsWith fence (b :: r) = false).
      { intros r. unfold fence. cbn [startsWith].
        destruct (N.eqb_spec backtick b); [congruence|reflexivity]. }
      rewrite removeAll_fence_keep in Hx |- * by apply Eb.
      rewrite includes_cons, E. exact Hx. }
  destruct x as [|c x]; [reflexivity|].
  destruct (N.eqb_spec c backtick) as [->|Hc].
  - rewrite removeAll_fence_drop.
    apply (IH (length x) ltac:(subst n; simpl; lia) x eq_refl).
  - assert (E : forall r,
               startsWith fence (backtick :: backtick :: c :: r) = false).
    { intros r. unfold fence. cbn [startsWith]. rewrite !N.eqb_refl.
      destruct (N.eqb_spec backtick c); [congruence|reflexivity]. }
    assert (E1 : forall r, startsWith fence (backtick :: c :: r) = false).
    { intros r. unfold fence. cbn [startsWith]. rewrite N.eqb_refl.
      destruct (N.eqb_spec backtick c); [congruence|reflexivity]. }
    assert (Ec : forall r, startsWith fence (c :: r) = false).
    { intros r. unfold fence. cbn [startsWith].
      destruct (N.eqb_spec backtick c); [congruence|reflexivity]. }
    pose proof (IH (length x) ltac:(subst n; simpl; lia) x eq_refl) as Hx.
    rewrite (removeAll_fence_keep backtick (backtick :: c :: x)) by apply E.
    rewrite (removeAll_fence_keep backtick (c :: x)) by apply E1.
    rewrite (removeAll_fence_keep c x) by apply Ec.
    rewrite !includes_cons, E, E1, Ec. exact Hx.
Qed.

Lemma removeAll_absent (pat s : jsstring) :
  pat <> [] -> includes pat s = false -> removeAll pat s = s.
Proof.
  intros Hne. induction s as [|c s IH]; intros H.
  - destruct pat; reflexivity.
  - rewrite includes_cons in H. apply orb_false_iff in H.
    destruct H as [H1 H2].
    rewrite removeAll_cons, H1 by exact Hne. f_equal. apply IH. exact H2.
Qed.

Lemma includes_longer_pat (p q s : jsstring) :
  includes p s = false -> includes (p ++ q) s = false.
Proof.
  induction s as [|c s IH].
  - cbn [includes]. rewrite !orb_false_r. intros H.
    destruct (startsWith (p ++ q) []) eqn:E; [|reflexivity].
    apply startsWith_pat_prefix in E. congruence.
  - rewrite !includes_cons. intros H. apply orb_false_iff in H.
    destruct H as [H1 H2]. rewrite (IH H2), orb_false_r.
    destruct (startsWith (p ++ q) (c :: s)) eqn:E; [|reflexivity].
    apply startsWith_pat_prefix in E. congruence.
Qed.

(** X1.  The cleaned text never contains a code-fence marker, wherever
    the markers stood in the response. *)
Theorem cleaned_text_has_no_fence (text : jsstring) :
  includes fence (cleanJson text) = false
  /\ includes fence_json (cleanJson text) = false.
Proof.
  assert (H : includes fence (cleanJson text) = false).
  { unfold cleanJson.
    destruct (includes fence
                (trim (removeAll fence (removeAll fence_json text))))
      eqn:E; [|reflexivity].
    apply includes_trim in E. rewrite removeAll_fence_clean in E.
    discriminate E. }
  split; [exact H|]. apply includes_longer_pat. exact H.
Qed.

(** X2.  A response without any marker is only trimmed: nothing else of
    it is touched. *)
Theorem unfenced_text_only_trimmed (text : jsstring) :
  includes fence text = false -> cleanJson text = trim text.
Proof.
  intros H. unfold cleanJson.
  rewrite (removeAll_absent fence_json text); [|discriminate|].
  - rewrite (removeAll_absent fence text); [reflexivity|discriminate|exact H].
  - apply (includes_longer_pat fence (lit "json")). exact H.
Qed.

Lemma unfenced_text_only_trimmed_witness :
  includes fence (lit "  { `a`: [1, 2] } ") = false
  /\ cleanJson (lit "  { `a`: [1, 2] } ") = lit "{ `a`: [1, 2] }".
Proof.
  split; [reflexivity|].
  rewrite (unfenced_text_only_trimmed (lit "  { `a`: [1, 2] } ") eq_refl).
  reflexivity.
Defined.

Lemma trimStart_head (s : jsstring) :
  match trimStart s with
  | [] => True
  | c :: _ => isTrimmed c = false
  end.
Proof.
  induction s as [|c s IH]; simpl; [exact I|].
  destruct (isTrimmed c) eqn:E; [exact IH|exact E].
Qed.

Lemma trimStart_fixed (s : jsstring) :
  match s with
  | [] => True
  | c :: _ => isTrimmed c = false
  end ->
  trimStart s = s.
Proof.
  destruct s as [|c s]; [reflexivity|]. simpl. intros ->. reflexivity.
Qed.

Lemma trimStart_idempotent (s : jsstring) :
  trimStart (trimStart s) = trimStart s.
Proof. apply trimStart_fixed, trimStart_head. Qed.

Lemma trim_idempotent (s : jsstring) : trim (trim s) = trim s.
Proof.
  unfold trim at 1.
  assert (E : trimStart (trim s) = trim s).
  { apply trimStart_fixed. unfold trim, trimEnd.
    pose proof (trimStart_head s) as Hu.
    destruct (trimStart_suffix (rev (trimStart s))) as [w Ew].
    apply (f_equal (@rev code_unit)) in Ew.
    rewrite rev_involutive, rev_app_distr in Ew.
    destruct (rev (trimStart (rev (trimStart s)))) as [|c v]; [exact I|].
    rewrite Ew in Hu. exact Hu. }
  rewrite E. unfold trim, trimEnd.
  rewrite rev_involutive, trimStart_idempotent. reflexivity.
Qed.

(** X3.  Cleaning is idempotent: a cleaned text is left as it is when
    cleaned again. *)
Theorem cleanJson_idempotent (text : jsstring) :
  cleanJson (cleanJson text) = cleanJson text.
Proof.
  assert (H : includes fence (cleanJson text) = false).
  { unfold cleanJson.
    destruct (includes fence
                (trim (removeAll fence (removeAll fence_json text))))
      eqn:E; [|reflexivity].
    apply includes_trim in E. rewrite removeAll_fence_clean in E.
    discriminate E. }
  unfold cleanJson at 1.
  rewrite (removeAll_absent fence_json (cleanJson text)); [|discriminate|].
  - rewrite (removeAll_absent fence (cleanJson text));
      [|discriminate|exact H].
    unfold cleanJson. apply trim_idempotent.
  - apply (includes_longer_pat fence (lit "json")). exact H.
Qed.

(** ** Inline emphasis, continued *)

Lemma split_go_skip (s cur : jsstring) (k : nat) :
  split_go k cur s = split_go O cur (skipn k s).
Proof.
  revert k. induction s as [|c s IH]; intros [|k]; try reflexivity.
  cbn [split_go skipn]. apply IH.
Qed.

Lemma match_at_not_star (c : code_unit) (s : jsstring) :
  c <> star -> match_at (c :: s) = None.
Proof.
  intros H. unfold match_at, bold_mark. cbn [startsWith].
  destruct (N.eqb_spec star c); [congruence|reflexivity].
Qed.

Lemma split_go_no_mark (s cur : jsstring) :
  includes bold_mark s = false ->
  split_go O cur s = [rev cur ++ s].
Proof.
  revert cur. induction s as [|c s IH]; intros cur H.
  - cbn. rewrite app_nil_r. reflexivity.
  - rewrite includes_cons in H. apply orb_false_iff in H.
    destruct H as [H1 H2]. cbn [split_go]. unfold match_at. rewrite H1.
    rewrite (IH _ H2). cbn [rev]. rewrite <- app_assoc. reflexivity.
Qed.

(** X4.  A content without two consecutive stars is rendered verbatim,
    as one plain part. *)
Theorem plain_content_rendered_verbatim (content : jsstring) :
  includes bold_mark content = false ->
  RichText content = [Plain content]
  /\ rendered_text (RichText content) = content.
Proof.
  intros H. unfold RichText, split_bold.
  rewrite (split_go_no_mark content [] H). cbn [rev app List.map].
  assert (E : is_bold_part content = false).
  { unfold is_bold_part. destruct content as [|c s]; [reflexivity|].
    rewrite includes_cons in H. apply orb_false_iff in H.
    destruct H as [-> _]. reflexivity. }
  unfold render_part. rewrite E. split; [reflexivity|].
  unfold rendered_text. cbn. apply app_nil_r.
Qed.

Lemma plain_content_rendered_verbatim_witness :
  includes bold_mark (lit "2 * 3 = 6") = false
  /\ RichText (lit "2 * 3 = 6") = [Plain (lit "2 * 3 = 6")].
Proof.
  split; [reflexivity|].
  apply (plain_content_rendered_verbatim (lit "2 * 3 = 6")). reflexivity.
Defined.

Lemma split_go_star_free (a rest cur : jsstring) :
  ~ In star a ->
  split_go O cur (a ++ rest) = split_go O (rev a ++ cur) rest.
Proof.
  revert cur. induction a as [|c a IH]; intros cur Ha; [reflexivity|].
  cbn [app split_go]. rewrite match_at_not_star.
  - rewrite IH.
    + cbn [rev]. rewrite <- app_assoc. reflexivity.
    + intros Hin. apply Ha. right. exact Hin.
  - intros ->. apply Ha. left. reflexivity.
Qed.

Lemma lazy_close_star_free (b rest : jsstring) :
  ~ In star b ->
  no_line_break b = true ->
  lazy_close (b ++ bold_mark ++ rest) = Some (length b).
Proof.
  induction b as [|c b IH]; intros Hb Hl; [reflexivity|].
  cbn [app lazy_close].
  assert (Hc : c <> star) by (intros ->; apply Hb; left; reflexivity).
  cbn in Hl. apply andb_true_iff in Hl. destruct Hl as [Hl1 Hl2].
  apply negb_true_iff in Hl1. rewrite Hl1.
  unfold bold_mark at 1. cbn [startsWith].
  destruct (N.eqb_spec star c); [congruence|]. cbn [andb].
  rewrite IH; [reflexivity| |exact Hl2].
  intros Hin. apply Hb. right. exact Hin.
Qed.

(** X5.  One emphasised phrase between two star-free stretches of text is
    rendered as plain text, the phrase in bold without its markers, plain
    text. *)
Theorem emphasised_phrase_rendered_bold (a b c : jsstring) :
  ~ In star a -> ~ In star b -> ~ In star c ->
  no_line_break b = true ->
  RichText (a ++ emphasised b ++ c) = [Plain a; Bold b; Plain c]
  /\ rendered_text (RichText (a ++ emphasised b ++ c)) = a ++ b ++ c.
Proof.
  intros Ha Hb Hc Hl.
  assert (Hplain : forall x, ~ In star x -> render_part x = Plain x).
  { intros x Hx. unfold render_part, is_bold_part, bold_mark.
    destruct x as [|y x]; [reflexivity|]. cbn [startsWith].
    destruct (N.eqb_spec star y) as [<-|_]; [|reflexivity].
    exfalso. apply Hx. left. reflexivity. }
  assert (Hm : match_at (emphasised b ++ c) = Some (length b + 4)%nat).
  { unfold match_at, emphasised, bold_mark. cbn [app startsWith skipn].
    rewrite !N.eqb_refl. cbn [andb].
    rewrite <- app_assoc.
    change ([star; star] ++ c) with (bold_mark ++ c).
    rewrite (lazy_close_star_free b c Hb Hl). reflexivity. }
  assert (E : RichText (a ++ emphasised b ++ c) = [Plain a; Bold b; Plain c]).
  { unfold RichText, split_bold.
    rewrite (split_go_star_free a (emphasised b ++ c) [] Ha).
    rewrite app_nil_r.
    assert (Hs : emphasised b ++ c = star :: (star :: b ++ bold_mark) ++ c).
    { unfold emphasised, bold_mark. cbn [app]. rewrite <- app_assoc.
      reflexivity. }
    rewrite Hs in Hm |- *. cbn [split_go]. rewrite Hm.
    rewrite split_go_skip. rewrite <- Hs.
    replace (length b + 4 - 1)%nat with (length (star :: b ++ bold_mark))
      by (cbn [length]; rewrite length_app; cbn; lia).
    rewrite skipn_app, skipn_all, Nat.sub_diag. cbn [app skipn].
    replace (length b + 4)%nat with (length (emphasised b))
      by (unfold emphasised; rewrite !length_app; cbn; lia).
    rewrite firstn_app, firstn_all, Nat.sub_diag. cbn [firstn].
    rewrite app_nil_r.
    rewrite (split_go_no_mark c []).
    - cbn [rev app List.map]. rewrite rev_involutive.
      rewrite (Hplain a Ha), (Hplain c Hc).
      unfold render_part, emphasised.
      rewrite is_bold_part_delimited, slice_delimited. reflexivity.
    - clear - Hc. induction c as [|y c IH]; [reflexivity|].
      rewrite includes_cons, IH.
      + unfold bold_mark. cbn [startsWith].
        destruct (N.eqb_spec star y) as [<-|_]; [|reflexivity].
        exfalso. apply Hc. left. reflexivity.
      + intros Hin. apply Hc. right. exact Hin. }
  split; [exact E|]. rewrite E. unfold rendered_text. cbn.
  rewrite app_nil_r. reflexivity.
Qed.

Lemma emphasised_phrase_rendered_bold_witness :
  RichText (lit "The **Red Fort** of Delhi")
  = [Plain (lit "The "); Bold (lit "Red Fort"); Plain (lit " of Delhi")].
Proof.
  apply (emphasised_phrase_rendered_bold
           (lit "The ") (lit "Red Fort") (lit " of Delhi")).
  - cbv. intros H. repeat (destruct H as [H|H]; [discriminate H|]). exact H.
  - cbv. intros H. repeat (destruct H as [H|H]; [discriminate H|]). exact H.
  - cbv. intros H. repeat (destruct H as [H|H]; [discriminate H|]). exact H.
  - reflexivity.
Defined.

Lemma split_go_odd (s cur : jsstring) (k : nat) :
  Nat.odd (length (split_go k cur s)) = true.
Proof.
  revert k cur. induction s as [|c s IH]; intros k cur; [reflexivity|].
  cbn [split_go]. destruct k as [|k]; [|apply IH].
  destruct (match_at (c :: s)); [|apply IH].
  cbn [length]. rewrite Nat.odd_succ, Nat.even_succ. apply IH.
Qed.

Lemma slice_shorter (s : jsstring) :
  (length (slice_2_m2 s) <= length s)%nat.
Proof.
  unfold slice_2_m2. rewrite length_firstn, length_skipn. lia.
Qed.

Lemma rendered_parts_shorter (parts : list jsstring) :
  (length (rendered_text (List.map render_part parts))
   <= length (concat parts))%nat.
Proof.
  unfold rendered_text.
  induction parts as [|p parts IH]; [reflexivity|].
  cbn [List.map concat]. rewrite !length_app.
  assert (H : (length (inline_text (render_part p)) <= length p)%nat).
  { unfold render_part. destruct (is_bold_part p); cbn [inline_text].
    - apply slice_shorter.
    - lia. }
  lia.
Qed.

(** X6.  The split always yields an odd number of parts (text, match,
    text, ..., text), and rendering never adds text: what is shown is at
    most as long as the content. *)
Theorem rich_text_parts_odd_and_not_longer (content : jsstring) :
  Nat.odd (length (RichText content)) = true
  /\ (length (rendered_text (RichText content)) <= length content)%nat.
Proof.
  unfold RichText. split.
  - rewrite length_map. apply split_go_odd.
  - pose proof (rendered_parts_shorter (split_bold content)) as H.
    unfold split_bold in H at 2. rewrite split_go_concat in H.
    exact H.
Qed.

Lemma lazy_close_no_line_break (s : jsstring) (k : nat) :
  lazy_close s = Some k -> no_line_break (firstn k s) = true.
Proof.
  revert k. induction s as [|c s IH]; intros k.
  - simpl. discriminate.
  - cbn [lazy_close].
    destruct (startsWith bold_mark (c :: s)).
    + intros H. injection H as <-. reflexivity.
    + destruct (isLineTerminator c) eqn:Ec; [discriminate|].
      destruct (lazy_close s) as [j|]; [|discriminate].
      simpl. intros H. injection H as <-.
      cbn [firstn no_line_break forallb]. rewrite Ec. cbn [negb andb].
      apply (IH j eq_refl).
Qed.

Lemma matched_no_line_break (s cur : jsstring) (k : nat) (m : jsstring) :
  In (Matched m) (segments_go k cur s) ->
  no_line_break m = true.
Proof.
  revert k cur. induction s as [|c s IH]; intros k cur.
  - simpl. intros [H|[]]. discriminate.
  - cbn [segments_go]. destruct k as [|k]; [|apply IH].
    destruct (match_at (c :: s)) as [n|] eqn:E; [|apply IH].
    intros [H|[H|H]]; [discriminate| |apply (IH _ _ H)].
    injection H as <-.
    destruct (match_at_shape _ _ E) as [_ ->].
    unfold match_at in E.
    destruct (startsWith bold_mark (c :: s)); [|discriminate].
    destruct (lazy_close (skipn 2 (c :: s))) as [j|] eqn:Ej; [|discriminate].
    cbn in E. injection E as <-.
    replace (j + 4 - 4)%nat with j by lia.
    unfold no_line_break. rewrite !forallb_app.
    fold (no_line_break (firstn j (skipn 2 (c :: s)))).
    rewrite (lazy_close_no_line_break _ _ Ej). reflexivity.
Qed.

(** X7.  A fragment matched by the pattern never spans a line break: two
    markers on different lines do not delimit a match. *)
Theorem matched_fragment_on_one_line (content m : jsstring) :
  In (Matched m) (segments content) -> no_line_break m = true.
Proof. apply matched_no_line_break. Qed.

Lemma matched_fragment_on_one_line_witness :
  In (Matched (lit "**b**")) (segments (lit "a **b** c"))
  /\ no_line_break (lit "**b**") = true.
Proof.
  assert (H : In (Matched (lit "**b**")) (segments (lit "a **b** c")))
    by (right; left; reflexivity).
  split; [exact H|].
  apply (matched_fragment_on_one_line (lit "a **b** c") (lit "**b**") H).
Defined.

(** ** Calls to the generative endpoint, continued *)

Section NarratorExtras.

Variable VITE_GEMINI_API_KEY : option jsstring.
Variable systemPrompt : jsstring -> jsstring.
Variable stringify : JSVal -> jsstring.
Variable engine_message : EngineFault -> jsstring.
Variable JSON_parse : jsstring -> Completion (option AIResponse).
Variable fetch : Request -> Completion Response.

Local Abbreviation attempt_call :=
  (request_and_parse VITE_GEMINI_API_KEY systemPrompt stringify
                     engine_message JSON_parse fetch).
Local Abbreviation call :=
  (generateAIContent VITE_GEMINI_API_KEY systemPrompt stringify
                     engine_message JSON_parse fetch).
Local Abbreviation request_of :=
  (the_request VITE_GEMINI_API_KEY systemPrompt stringify).
Local Abbreviation call_succeeds :=
  (succeeds VITE_GEMINI_API_KEY systemPrompt stringify JSON_parse fetch).

(** A throwing [try] block hands its error to the [catch] block. *)
Lemma call_of_throw (prompt : JSVal) (img : option jsstring)
      (t : list Action) (e : JSError) :
  attempt_call prompt img = (t, Throw e) ->
  call prompt img
  = (SetLoading true :: SetAiData None
       :: t ++ trace (report_failure e) ++ [SetLoading false], Normal tt).
Proof.
  intros E. unfold generateAIContent. rewrite E.
  destruct (report_failure_shape e) as (msg & Er & _).
  cbn [try_catch]. rewrite Er. eff. cbn [trace fst].
  rewrite <- app_assoc. reflexivity.
Qed.

Lemma alerts_of_throw (prompt : JSVal) (img : option jsstring)
      (t : list Action) (e : JSError) :
  attempt_call prompt img = (t, Throw e) ->
  quiet t ->
  alerts (trace (call prompt img)) = alerts (trace (report_failure e)).
Proof.
  intros E Hq. rewrite (call_of_throw prompt img t e E). cbn [trace fst].
  change (SetLoading true :: SetAiData None :: ?x)
    with ([SetLoading true; SetAiData None] ++ x).
  rewrite !alerts_app, (alerts_quiet t Hq). cbn [alerts filter is_alert app].
  apply app_nil_r.
Qed.

(** X8.  A response with status 503 is reported with the busy message,
    whatever its body says, and nothing is stored. *)
Theorem overloaded_service_reports_busy (prompt : JSVal)
        (img : option jsstring) (r : Response) (body : JSON)
        (st : AppState) :
  fetch (request_of prompt img) = Normal r ->
  status r = 503 ->
  json r = Normal body ->
  alerts (trace (call prompt img)) = [Alert busy_alert]
  /\ aiData (after st (call prompt img)) = None
  /\ loading (after st (call prompt img)) = false.
Proof.
  intros Hf Hs Hj.
  assert (E : attempt_call prompt img
              = ([ConsoleLog (lit "API Response:") (LogValue (Some body));
                  ConsoleLog (lit "Response OK:") (LogFlag false);
                  ConsoleError (lit "API Error Response:")
                               (LogValue (Some body))],
                 Throw (mkError (lit
                   "AI service is busy. Please wait a moment and try again.")))).
  { unfold request_and_parse. fold (request_of prompt img).
    rewrite Hf. eff. rewrite Hj. unfold ok. rewrite Hs. reflexivity. }
  split.
  - rewrite (alerts_of_throw prompt img _ _ E eq_refl). reflexivity.
  - rewrite (call_of_throw prompt img _ _ E). split; reflexivity.
Qed.

(** X9.  A successful response that carries no text (no candidates, an
    empty list, an empty string) is reported with the generic message
    naming the empty response, and nothing is stored. *)
Theorem empty_response_reported (prompt : JSVal) (img : option jsstring)
        (r : Response) (body : JSON) (st : AppState) :
  fetch (request_of prompt img) = Normal r ->
  ok r = true ->
  json r = Normal body ->
  body <> JNull ->
  truthy (extract_text body) = false ->
  alerts (trace (call prompt img))
  = [Alert (generic_alert
              (lit "Empty response from AI. Check console for details."))]
  /\ aiData (after st (call prompt img)) = None.
Proof.
  intros Hf Hok Hj Hnn Ht.
  assert (E : attempt_call prompt img
              = ([ConsoleLog (lit "API Response:") (LogValue (Some body));
                  ConsoleLog (lit "Response OK:") (LogFlag true);
                  ConsoleLog (lit "Extracted text:")
                             (LogValue (extract_text body));
                  ConsoleError (lit "Full API Response:")
                               (LogValue (Some body))],
                 Throw (mkError (lit
                   "Empty response from AI. Check console for details.")))).
  { unfold request_and_parse. fold (request_of prompt img).
    rewrite Hf. eff. rewrite Hj, Hok. eff.
    rewrite (get_prop_nonnull engine_message (lit "candidates") _ Hnn).
    eff. fold (extract_text body). rewrite Ht. reflexivity. }
  split.
  - rewrite (alerts_of_throw prompt img _ _ E eq_refl). reflexivity.
  - rewrite (call_of_throw prompt img _ _ E). reflexivity.
Qed.

(** X10.  A failed response whose body carries an error message is
    reported by that message: the busy text if it mentions "overloaded"
    or "busy", else the key text if it mentions "API key", else the
    message itself behind the generic prefix. *)
Theorem error_body_message_reported (prompt : JSVal) (img : option jsstring)
        (r : Response) (fields errf : list (jsstring * JSON))
        (m : jsstring) :
  fetch (request_of prompt img) = Normal r ->
  ok r = false ->
  status r <> 503 ->
  json r = Normal (JObj fields) ->
  lookup (lit "error") fields = Some (JObj errf) ->
  lookup (lit "message") errf = Some (JStr m) ->
  m <> [] ->
  alerts (trace (call prompt img))
  = [Alert (if includes (lit "overloaded") m || includes (lit "busy") m
            then busy_alert
            else if includes (lit "API key") m
                 then key_alert
                 else generic_alert m)].
Proof.
  intros Hf Hok Hs Hj He Hm Hne.
  apply N.eqb_neq in Hs.
  assert (E : attempt_call prompt img
              = ([ConsoleLog (lit "API Response:")
                             (LogValue (Some (JObj fields)));
                  ConsoleLog (lit "Response OK:") (LogFlag false);
                  ConsoleError (lit "API Error Response:")
                               (LogValue (Some (JObj fields)))],
                 Throw (mkError m))).
  { unfold request_and_parse. fold (request_of prompt img).
    rewrite Hf. eff. rewrite Hj, Hok. eff. rewrite Hs.
    cbn [get_prop get_prop_opt]. eff. rewrite He.
    cbn [opt_prop get_prop_opt]. rewrite Hm.
    destruct m as [|c m]; [congruence|]. reflexivity. }
  rewrite (alerts_of_throw prompt img _ _ E eq_refl).
  unfold report_failure. cbn [message].
  destruct (includes (lit "overloaded") m || includes (lit "busy") m);
    [reflexivity|].
  destruct (includes (lit "API key") m); reflexivity.
Qed.

(** X11.  A failed response whose body has no error entry is reported by
    the status text of the response, and by "Please try again." when
    that is empty too. *)
Theorem error_without_message_reported (prompt : JSVal)
        (img : option jsstring) (r : Response)
        (fields : list (jsstring * JSON)) :
  fetch (request_of prompt img) = Normal r ->
  ok r = false ->
  status r <> 503 ->
  json r = Normal (JObj fields) ->
  lookup (lit "error") fields = None ->
  (statusText r = [] ->
   alerts (trace (call prompt img))
   = [Alert (10060 :: lit " Error: Please try again.")])
  /\ (includes (lit "overloaded") (statusText r) = false ->
      includes (lit "busy") (statusText r) = false ->
      includes (lit "API key") (statusText r) = false ->
      alerts (trace (call prompt img))
      = [Alert (generic_alert (statusText r))]).
Proof.
  intros Hf Hok Hs Hj He.
  apply N.eqb_neq in Hs.
  assert (E : attempt_call prompt img
              = ([ConsoleLog (lit "API Response:")
                             (LogValue (Some (JObj fields)));
                  ConsoleLog (lit "Response OK:") (LogFlag false);
                  ConsoleError (lit "API Error Response:")
                               (LogValue (Some (JObj fields)))],
                 Throw (mkError (statusText r)))).
  { unfold request_and_parse. fold (request_of prompt img).
    rewrite Hf. eff. rewrite Hj, Hok. eff. rewrite Hs.
    cbn [get_prop get_prop_opt]. eff. rewrite He. reflexivity. }
  rewrite (alerts_of_throw prompt img _ _ E eq_refl).
  unfold report_failure. cbn [message]. split.
  - intros ->. reflexivity.
  - intros -> -> ->. reflexivity.
Qed.

(** X12.  A call touches only the loading flag and the stored result: the
    position, the label, the preview, the login state and the
    authenticated flag are as before. *)
Theorem call_leaves_rest_of_state (prompt : JSVal) (img : option jsstring)
        (st : AppState) :
  isAuthenticated (after st (call prompt img)) = isAuthenticated st
  /\ position (after st (call prompt img)) = position st
  /\ address (after st (call prompt img)) = address st
  /\ previewImage (after st (call prompt img)) = previewImage st
  /\ login (after st (call prompt img)) = login st.
Proof.
  pose proof (generateAIContent_state VITE_GEMINI_API_KEY systemPrompt
                stringify engine_message JSON_parse fetch prompt img st)
    as (H1 & H2 & H3 & H4 & H5 & _).
  auto.
Qed.

(** X13.  What the result card shows around a call: the spinner once the
    call has started, whatever was stored before; after a failed call the
    empty card, not the previous result; after a successful call the
    card of the parsed payload. *)
Theorem card_around_a_call (prompt : JSVal) (img : option jsstring)
        (st : AppState) :
  ResultCard (aiData (run st [SetLoading true; SetAiData None]))
             (loading (run st [SetLoading true; SetAiData None]))
  = AnalyzingLocation
  /\ ((forall d, ~ call_succeeds prompt img d) ->
      ResultCard (aiData (after st (call prompt img)))
                 (loading (after st (call prompt img)))
      = BeginExploration)
  /\ (forall d, call_succeeds prompt img d ->
      ResultCard (aiData (after st (call prompt img)))
                 (loading (after st (call prompt img)))
      = ResultCard d false).
Proof.
  pose proof (generateAIContent_state VITE_GEMINI_API_KEY systemPrompt
                stringify engine_message JSON_parse fetch prompt img st)
    as (_ & _ & _ & _ & _ & Hl & Hn & Hs).
  split; [reflexivity|]. split.
  - intros H. rewrite Hl, (Hn H). reflexivity.
  - intros d H. rewrite Hl, (Hs d H). reflexivity.
Qed.

(** X14.  A successful response whose first candidate holds a text part
    is parsed from that part alone: further candidates and parts are
    ignored, the parsed payload is stored, and no alert is shown. *)
Theorem first_text_part_is_stored (prompt : JSVal) (img : option jsstring)
        (r : Response) (fields cand content part : list (jsstring * JSON))
        (more_candidates more_parts : list JSON) (s : jsstring)
        (d : option AIResponse) (st : AppState) :
  fetch (request_of prompt img) = Normal r ->
  ok r = true ->
  json r = Normal (JObj fields) ->
  lookup (lit "candidates") fields
  = Some (JArr (JObj cand :: more_candidates)) ->
  lookup (lit "content") cand = Some (JObj content) ->
  lookup (lit "parts") content = Some (JArr (JObj part :: more_parts)) ->
  lookup (lit "text") part = Some (JStr s) ->
  s <> [] ->
  JSON_parse (cleanJson s) = Normal d ->
  alerts (trace (call prompt img)) = []
  /\ aiData (after st (call prompt img)) = d
  /\ loading (after st (call prompt img)) = false.
Proof.
  intros Hf Hok Hj Hc Hcont Hp Ht Hne Hparse.
  assert (Hs : call_succeeds prompt img d).
  { exists r, (JObj fields), s. repeat split; auto.
    unfold extract_text. cbn [get_prop_opt]. rewrite Hc.
    cbn [opt_index0 opt_prop get_prop_opt]. rewrite Hcont.
    cbn [opt_index0 opt_prop get_prop_opt]. rewrite Hp.
    cbn [opt_index0 opt_prop get_prop_opt]. exact Ht. }
  pose proof (generateAIContent_state VITE_GEMINI_API_KEY systemPrompt
                stringify engine_message JSON_parse fetch prompt img st)
    as (_ & _ & _ & _ & _ & Hl & _ & Hd).
  split; [|split; [apply Hd; exact Hs|exact Hl]].
  destruct (generateAIContent_cases VITE_GEMINI_API_KEY systemPrompt
              stringify engine_message JSON_parse fetch prompt img)
    as [(d' & t & _ & Hq & E)|(e & t & msg & Hno & _)].
  - rewrite E. cbn [trace fst].
    change (SetLoading true :: SetAiData None :: ?x)
      with ([SetLoading true; SetAiData None] ++ x).
    rewrite !alerts_app, (alerts_quiet t Hq). reflexivity.
  - destruct (Hno d Hs).
Qed.

End NarratorExtras.

(** ** Map clicks and uploads, continued *)

Lemma split_on_no_sep (sep : code_unit) (cur s : jsstring) :
  ~ In sep s -> split_on sep cur s = [rev cur ++ s].
Proof.
  revert cur. induction s as [|c s IH]; intros cur H.
  - cbn. rewrite app_nil_r. reflexivity.
  - cbn [split_on]. destruct (N.eqb_spec c sep) as [->|_].
    + exfalso. apply H. left. reflexivity.
    + rewrite IH by (intros Hin; apply H; right; exact Hin).
      cbn [rev]. rewrite <- app_assoc. reflexivity.
Qed.

Lemma split_on_first_sep (sep : code_unit) (cur a b : jsstring) :
  ~ In sep a ->
  split_on sep cur (a ++ sep :: b) = (rev cur ++ a) :: split_on sep [] b.
Proof.
  revert cur. induction a as [|c a IH]; intros cur H.
  - cbn [app split_on]. rewrite N.eqb_refl, app_nil_r. reflexivity.
  - cbn [app split_on]. destruct (N.eqb_spec c sep) as [->|_].
    + exfalso. apply H. left. reflexivity.
    + rewrite IH by (intros Hin; apply H; right; exact Hin).
      cbn [rev]. rewrite <- app_assoc. reflexivity.
Qed.

(** X15.  The payload taken from a data URL is what stands between its
    first comma and the next one: the whole rest when the rest has no
    comma, only the piece before the next comma otherwise; a result
    without a comma yields no payload. *)
Theorem payload_of_data_url (header payload rest : jsstring) :
  ~ In comma header ->
  ~ In comma payload ->
  base64_of (Some (data_url header payload)) = Some payload
  /\ base64_of (Some (data_url header (payload ++ comma :: rest)))
     = Some payload
  /\ base64_of (Some header) = None.
Proof.
  intros Hh Hp. unfold base64_of, split, data_url. repeat split.
  - rewrite (split_on_first_sep comma [] header payload Hh).
    rewrite (split_on_no_sep comma [] payload Hp). reflexivity.
  - rewrite (split_on_first_sep comma [] header _ Hh).
    rewrite (split_on_first_sep comma [] payload rest Hp). reflexivity.
  - rewrite (split_on_no_sep comma [] header Hh). reflexivity.
Qed.

Lemma payload_of_data_url_witness :
  base64_of (Some photo_url) = Some (lit "QUJD").
Proof.
  apply (payload_of_data_url (lit "data:image/jpeg;base64") (lit "QUJD") []).
  - cbv. intros H. repeat (destruct H as [H|H]; [discriminate H|]). exact H.
  - cbv. intros H. repeat (destruct H as [H|H]; [discriminate H|]). exact H.
Defined.

Section MapExtras.

Variable VITE_GEMINI_API_KEY : option jsstring.
Variable systemPrompt : jsstring -> jsstring.
Variable stringify : JSVal -> jsstring.
Variable engine_message : EngineFault -> jsstring.
Variable JSON_parse : jsstring -> Completion (option AIResponse).
Variable fetch : Request -> Completion Response.
Variable axios_get : Q -> Q -> Completion JSVal.
Variable File : Type.
Variable readAsDataURL : File -> option jsstring.

Local Abbreviation call :=
  (generateAIContent VITE_GEMINI_API_KEY systemPrompt stringify
                     engine_message JSON_parse fetch).
Local Abbreviation geocode := (fetchAddress engine_message axios_get).
Local Abbreviation click :=
  (handleMapClick VITE_GEMINI_API_KEY systemPrompt stringify
                  engine_message JSON_parse fetch axios_get).
Local Abbreviation marker_click :=
  (map_click VITE_GEMINI_API_KEY systemPrompt stringify
             engine_message JSON_parse fetch axios_get).
Local Abbreviation upload :=
  (@handleImageUpload VITE_GEMINI_API_KEY systemPrompt stringify
                      engine_message JSON_parse fetch File readAsDataURL).

Lemma geocode_value (lat lng : Q) :
  exists v, geocode lat lng = ([], Normal v) /\ truthy v = true.
Proof.
  unfold fetchAddress.
  destruct (axios_get lat lng) as [[data|]|e]; eff;
    try (eexists; split; reflexivity).
  destruct (JSON_null_dec data) as [->|Hnn].
  - cbn [get_prop]. eff. eexists; split; reflexivity.
  - rewrite (get_prop_nonnull engine_message _ _ Hnn). eff.
    unfold or_else.
    destruct (truthy (get_prop_opt (lit "display_name") data)) eqn:E;
      eexists; (split; [reflexivity|]); [exact E|reflexivity].
Qed.


(** X17.  The two placeholders of [fetchAddress]: a body without a
    display name, or with an empty one, gives "Unknown Location"; a null
    or missing body gives "Selected Location", like a failed request. *)
Theorem geocode_placeholders (lat lng : Q) :
  (forall fields,
      axios_get lat lng = Normal (Some (JObj fields)) ->
      lookup (lit "display_name") fields = None
      \/ lookup (lit "display_name") fields = Some (JStr []) ->
      geocode lat lng
      = ([], Normal (Some (JStr (lit "Unknown Location")))))
  /\ (axios_get lat lng = Normal (Some JNull)
      \/ axios_get lat lng = Normal None ->
      geocode lat lng
      = ([], Normal (Some (JStr (lit "Selected Location"))))).
Proof.
  unfold fetchAddress. split.
  - intros fields -> [H|H]; eff; cbn [get_prop get_prop_opt]; eff;
      rewrite H; reflexivity.
  - intros [-> | ->]; reflexivity.
Qed.

(** X18.  A map click puts the marker on the clicked point and drops the
    image preview; the click handler of the marker layer, which sets the
    position once more before, ends in the same state. *)
Theorem map_click_moves_marker_drops_preview (latlng : LatLng)
        (st : AppState) :
  position (after st (click latlng)) = Some latlng
  /\ previewImage (after st (click latlng)) = None
  /\ after st (marker_click latlng) = after st (click latlng)
  /\ (isAuthenticated st = true ->
      marker_of (App (after st (click latlng))) = Some latlng
      /\ thumbnail (App (after st (click latlng))) = None).
Proof.
  destruct (geocode_value (lat latlng) (lng latlng)) as (v & E & _).
  pose proof (call_returns VITE_GEMINI_API_KEY systemPrompt stringify
                engine_message JSON_parse fetch v None) as Hc.
  pose proof (generateAIContent_state VITE_GEMINI_API_KEY systemPrompt
                stringify engine_message JSON_parse fetch v None
                (run st [SetPosition (Some latlng); SetPreviewImage None;
                         SetAddress v]))
    as (Hauth & Hpos & _ & Hprev & _).
  unfold map_click, handleMapClick. rewrite E. eff.
  destruct (call v None) as [t c]. cbn in Hc. subst c.
  change (after st (SetPosition (Some latlng) :: SetPreviewImage None
                      :: SetAddress v :: t, Normal tt))
    with (after (run st [SetPosition (Some latlng); SetPreviewImage None;
                         SetAddress v]) (t, Normal tt)).
  split; [exact Hpos|]. split; [exact Hprev|]. split; [reflexivity|].
  intros Hst. unfold App. rewrite Hauth.
  change (isAuthenticated (run st _)) with (isAuthenticated st).
  rewrite Hst. cbn [negb marker_of thumbnail]. rewrite Hpos, Hprev.
  split; reflexivity.
Qed.

(** X19.  An upload that yields no payload is dropped silently: with no
    file chosen, with a failed read, with a result that has no comma or
    nothing after it, the handler makes no setter call, writes nothing
    to the console and shows no alert. *)
Theorem upload_without_payload_ignored (file : option File) :
  file = None
  \/ (exists f, file = Some f
      /\ (base64_of (readAsDataURL f) = None
          \/ base64_of (readAsDataURL f) = Some [])) ->
  upload file = ([], Normal tt)
  /\ forall st, after st (upload file) = st.
Proof.
  intros H.
  assert (E : upload file = ([], Normal tt)).
  { unfold handleImageUpload.
    destruct H as [->|(f & -> & [H|H])]; [reflexivity| |];
      rewrite H; reflexivity. }
  split; [exact E|]. intros st. rewrite E. reflexivity.
Qed.

(** X20.  After an upload with a payload the label reads "Analyzing
    image..." and keeps reading so when the call has returned, whatever
    its outcome. *)
Theorem upload_label_stays (f : File) (url b : jsstring) (st : AppState) :
  readAsDataURL f = Some url ->
  base64_of (Some url) = Some b ->
  b <> [] ->
  completion (upload (Some f)) = Normal tt
  /\ address (after st (upload (Some f)))
     = Some (JStr (lit "Analyzing image...")).
Proof.
  intros Hr Hb Hne. unfold handleImageUpload. rewrite Hr, Hb.
  destruct b as [|c b]; [congruence|].
  pose proof (generateAIContent_state VITE_GEMINI_API_KEY systemPrompt
                stringify engine_message JSON_parse fetch
                (Some (JStr [])) (Some (c :: b))
                (run st [SetPreviewImage (Some url);
                         SetAddress (Some (JStr (lit "Analyzing image...")));
                         SetPosition None]))
    as (_ & _ & Haddr & _).
  pose proof (call_returns VITE_GEMINI_API_KEY systemPrompt stringify
                engine_message JSON_parse fetch
                (Some (JStr [])) (Some (c :: b))) as Hc.
  destruct (call (Some (JStr [])) (Some (c :: b))) as [t r].
  cbn in Hc. subst r. split; [reflexivity|].
  change (after st
            (emit (SetPreviewImage (Some url)) ;;;
             emit (SetAddress (Some (JStr (lit "Analyzing image...")))) ;;;
             emit (SetPosition None) ;;; (t, Normal tt)))
    with (after (run st [SetPreviewImage (Some url);
                   SetAddress (Some (JStr (lit "Analyzing image...")));
                   SetPosition None]) (t, Normal tt)).
  exact Haddr.
Qed.

End MapExtras.

(** ** The access gate, continued *)

Lemma attempt_rejected (env : option jsstring) (st : AppState)
      (guess : jsstring) :
  guess <> APP_PASSWORD env ->
  isAuthenticated (attempt env st guess) = isAuthenticated st
  /\ error (login (attempt env st guess)) = true
  /\ login_loading (login (attempt env st guess)) = false.
Proof.
  intros H. unfold attempt, submit.
  change (pass (login (onChange guess st))) with guess.
  rewrite (handleSubmit_mismatch env onLogin guess H).
  repeat split.
Qed.

Lemma attempt_accepted (env : option jsstring) (st : AppState) :
  isAuthenticated (attempt env st (APP_PASSWORD env)) = true.
Proof.
  unfold attempt, submit.
  change (pass (login (onChange (APP_PASSWORD env) st)))
    with (APP_PASSWORD env).
  rewrite (handleSubmit_match env onLogin _ eq_refl). reflexivity.
Qed.

Lemma attempts_rejected (env : option jsstring) (guesses : list jsstring)
      (st : AppState) :
  Forall (fun g => g <> APP_PASSWORD env) guesses ->
  isAuthenticated (attempts env st guesses) = isAuthenticated st
  /\ (guesses <> [] ->
      error (login (attempts env st guesses)) = true
      /\ login_loading (login (attempts env st guesses)) = false).
Proof.
  revert st. induction guesses as [|g gs IH]; intros st H.
  - split; [reflexivity|congruence].
  - inversion H as [|? ? Hg Hgs]; subst.
    destruct (attempt_rejected env st g Hg) as (Ha & He & Hl).
    destruct (IH (attempt env st g) Hgs) as [IHa IHe].
    unfold attempts in *. cbn [fold_left]. split.
    + rewrite IHa. exact Ha.
    + intros _. destruct gs as [|g' gs'].
      * cbn [fold_left]. split; assumption.
      * apply IHe. discriminate.
Qed.

(** X21.  The gate has no lockout and no memory: after any number of
    wrong attempts the view is still locked, the error indicator is
    shown and the button is enabled again; typing clears the indicator;
    and the next attempt with the password unlocks. *)
Theorem gate_has_no_lockout (env : option jsstring)
        (guesses : list jsstring) (typed_text : jsstring)
        (st : AppState) :
  isAuthenticated st = false ->
  Forall (fun g => g <> APP_PASSWORD env) guesses ->
  unlocked (App (attempts env st guesses)) = false
  /\ (guesses <> [] ->
      App (attempts env st guesses) = LoginView true false)
  /\ error_indicator_shown
       (App (onChange typed_text (attempts env st guesses))) = false
  /\ unlocked (App (attempt env (attempts env st guesses)
                            (APP_PASSWORD env))) = true.
Proof.
  intros Hst Hw.
  destruct (attempts_rejected env guesses st Hw) as [Ha He].
  rewrite Hst in Ha. repeat split.
  - unfold App. rewrite Ha. reflexivity.
  - intros Hne. destruct (He Hne) as [H1 H2].
    unfold App. rewrite Ha, H1, H2. reflexivity.
  - unfold App.
    change (isAuthenticated (onChange typed_text (attempts env st guesses)))
      with (isAuthenticated (attempts env st guesses)).
    rewrite Ha. reflexivity.
  - unfold App. rewrite attempt_accepted. reflexivity.
Qed.

Lemma gate_has_no_lockout_witness :
  App (attempts None initial_state [lit "admin"; lit "ambuj"; lit "AmbujAi"])
  = LoginView true false
  /\ unlocked
       (App (attempt None
               (attempts None initial_state
                         [lit "admin"; lit "ambuj"; lit "AmbujAi"])
               (lit "AmbujAI"))) = true.
Proof.
  destruct (gate_has_no_lockout None
              [lit "admin"; lit "ambuj"; lit "AmbujAi"] [] initial_state
              eq_refl) as (_ & H2 & _ & H4).
  - repeat constructor; discriminate.
  - split; [apply H2; discriminate|exact H4].
Defined.

(** ** The result card, continued *)






(** ** Concrete runs, continued *)

Lemma overloaded_service_reports_busy_witness :
  alerts (trace (generateAIContent None demo_prompt demo_stringify
                   demo_engine_message demo_parse overloaded
                   (Some (JStr red_fort)) None))
  = [Alert busy_alert].
Proof.
  apply (overloaded_service_reports_busy None demo_prompt demo_stringify
           demo_engine_message demo_parse overloaded
           (Some (JStr red_fort)) None
           (mkResponse 503 (lit "Service Unavailable") (Normal (JObj [])))
           (JObj []) signed_in);
    reflexivity.
Defined.

Lemma empty_response_reported_witness :
  alerts (trace (generateAIContent None demo_prompt demo_stringify
                   demo_engine_message demo_parse blocked
                   (Some (JStr red_fort)) None))
  = [Alert (generic_alert
              (lit "Empty response from AI. Check console for details."))].
Proof.
  destruct (empty_response_reported None demo_prompt demo_stringify
              demo_engine_message demo_parse blocked
              (Some (JStr red_fort)) None
              (mkResponse 200 (lit "OK")
                 (Normal (JObj [(lit "promptFeedback",
                                 JObj [(lit "blockReason",
                                        JStr (lit "SAFETY"))])])))
              (JObj [(lit "promptFeedback",
                      JObj [(lit "blockReason", JStr (lit "SAFETY"))])])
              signed_in eq_refl eq_refl eq_refl ltac:(discriminate) eq_refl)
    as [H _].
  exact H.
Defined.

Lemma error_body_message_reported_witness :
  alerts (trace (generateAIContent None demo_prompt demo_stringify
                   demo_engine_message demo_parse bad_key
                   (Some (JStr red_fort)) None))
  = [Alert key_alert].
Proof.
  apply (error_body_message_reported None demo_prompt demo_stringify
           demo_engine_message demo_parse bad_key
           (Some (JStr red_fort)) None
           (mkResponse 400 (lit "Bad Request")
              (Normal (JObj [(lit "error",
                              JObj [(lit "code", JNum 400);
                                    (lit "message",
                                     JStr (lit "API key not valid."))])])))
           [(lit "error",
             JObj [(lit "code", JNum 400);
                   (lit "message", JStr (lit "API key not valid."))])]
           [(lit "code", JNum 400);
            (lit "message", JStr (lit "API key not valid."))]
           (lit "API key not valid."));
    reflexivity || discriminate.
Defined.

Lemma error_without_message_reported_witness :
  alerts (trace (generateAIContent None demo_prompt demo_stringify
                   demo_engine_message demo_parse not_found
                   (Some (JStr red_fort)) None))
  = [Alert (10060 :: lit " Error: Please try again.")].
Proof.
  destruct (error_without_message_reported None demo_prompt demo_stringify
              demo_engine_message demo_parse not_found
              (Some (JStr red_fort)) None
              (mkResponse 404 [] (Normal (JObj []))) []
              eq_refl eq_refl ltac:(discriminate) eq_refl eq_refl)
    as [H _].
  apply H. reflexivity.
Defined.

Lemma answering_succeeds :
  succeeds None demo_prompt demo_stringify demo_parse_taj answering
           (Some (JStr red_fort)) None (Some taj_mahal).
Proof.
  exists (mkResponse 200 (lit "OK")
            (Normal (one_candidate (fenced fence_json taj_text)))),
         (one_candidate (fenced fence_json taj_text)),
         (fenced fence_json taj_text).
  repeat split; try reflexivity. discriminate.
Qed.

Lemma card_around_a_call_witness :
  ResultCard
    (aiData (after signed_in
               (generateAIContent None demo_prompt demo_stringify
                  demo_engine_message demo_parse_taj answering
                  (Some (JStr red_fort)) None)))
    (loading (after signed_in
                (generateAIContent None demo_prompt demo_stringify
                   demo_engine_message demo_parse_taj answering
                   (Some (JStr red_fort)) None)))
  = ResultCard (Some taj_mahal) false.
Proof.
  apply (card_around_a_call None demo_prompt demo_stringify
           demo_engine_message demo_parse_taj answering
           (Some (JStr red_fort)) None signed_in).
  exact answering_succeeds.
Defined.

Lemma first_text_part_is_stored_witness :
  aiData (after signed_in
            (generateAIContent None demo_prompt demo_stringify
               demo_engine_message demo_parse_taj answering
               (Some (JStr red_fort)) None))
  = Some taj_mahal.
Proof.
  destruct (first_text_part_is_stored None demo_prompt demo_stringify
              demo_engine_message demo_parse_taj answering
              (Some (JStr red_fort)) None
              (mkResponse 200 (lit "OK")
                 (Normal (one_candidate (fenced fence_json taj_text))))
              [(lit "candidates",
                JArr [JObj [(lit "content",
                             JObj [(lit "parts",
                                    JArr [JObj [(lit "text",
                                      JStr (fenced fence_json taj_text))]]);
                                   (lit "role", JStr (lit "model"))]);
                            (lit "finishReason", JStr (lit "STOP"))]])]
              [(lit "content",
                JObj [(lit "parts",
                       JArr [JObj [(lit "text",
                                    JStr (fenced fence_json taj_text))]]);
                      (lit "role", JStr (lit "model"))]);
               (lit "finishReason", JStr (lit "STOP"))]
              [(lit "parts",
                JArr [JObj [(lit "text",
                             JStr (fenced fence_json taj_text))]]);
               (lit "role", JStr (lit "model"))]
              [(lit "text", JStr (fenced fence_json taj_text))]
              [] [] (fenced fence_json taj_text) (Some taj_mahal) signed_in
              eq_refl eq_refl eq_refl eq_refl eq_refl eq_refl eq_refl
              ltac:(discriminate) eq_refl)
    as (_ & H & _).
  exact H.
Defined.

Lemma geocode_placeholders_witness :
  fetchAddress demo_engine_message geocoder_nowhere (lat delhi) (lng delhi)
  = ([], Normal (Some (JStr (lit "Unknown Location")))).
Proof.
  destruct (geocode_placeholders demo_engine_message geocoder_nowhere
              (lat delhi) (lng delhi)) as [H _].
  apply (H [(lit "error", JStr (lit "Unable to geocode"))]).
  - reflexivity.
  - left. reflexivity.
Defined.

Lemma map_click_moves_marker_drops_preview_witness :
  marker_of
    (App (after signed_in
            (handleMapClick None demo_prompt demo_stringify
               demo_engine_message demo_parse offline geocoder_up delhi)))
  = Some delhi.
Proof.
  destruct (map_click_moves_marker_drops_preview None demo_prompt
              demo_stringify demo_engine_message demo_parse offline
              geocoder_up delhi signed_in) as (_ & _ & _ & H).
  destruct (H eq_refl) as [H1 _]. exact H1.
Defined.

Lemma upload_without_payload_ignored_witness :
  handleImageUpload None demo_prompt demo_stringify demo_engine_message
                    demo_parse offline read_nothing (Some tt)
  = ([], Normal tt).
Proof.
  apply (upload_without_payload_ignored None demo_prompt demo_stringify
           demo_engine_message demo_parse offline unit read_nothing
           (Some tt)).
  right. exists tt. split; [reflexivity|]. left. reflexivity.
Defined.

Lemma upload_label_stays_witness :
  address (after signed_in
             (handleImageUpload None demo_prompt demo_stringify
                demo_engine_message demo_parse offline read_photo (Some tt)))
  = Some (JStr (lit "Analyzing image...")).
Proof.
  apply (upload_label_stays None demo_prompt demo_stringify
           demo_engine_message demo_parse offline unit read_photo tt
           photo_url (lit "QUJD") signed_in);
    reflexivity || discriminate.
Defined.
